(** * TaskRunner: the poll / execute / update loop of a Conductor worker

    A shallow embedding of [src/task/TaskRunner.ts].  The runner is a
    stateful, effectful loop that talks to three services which are
    awaited (the queue service's [poll] and [updateTask1], and the
    worker's [execute]) and to two callbacks of the host which are
    called in place (the logger and the error handler).

    - JavaScript values are an inductive type; objects are finite maps
      from field names to values.  Tasks and results are objects; a
      failure value is any value, [null] and [undefined] included.
    - Every call that leaves the runner is recorded in a trace, and so is
      each entry of [updateTaskWithRetry], so that its calls can be
      counted.  The host is an environment that answers each call from
      the trace so far, so any deterministic behaviour of the queue
      service, of the worker, of the logger and of the error handler is
      an instance.
    - A call may come back in three ways: with a value, with an
      exception, or not at all.  That holds for the awaited services and
      for the logger and the error handler alike: they are the host's
      code, called outside any [try] of their own.  While the runner is
      in a call, the host may call [stopPolling].
    - Runner methods are functions in a state-and-exception monad over
      the runner's mutable state (the [isPolling] flag and the trace).
    - What the engine prints is the engine's: the text of the errors it
      builds and of the numbers beyond the safe integers are its
      parameters.
    - [poll] may run forever: it is given a bound on the number of its
      turns and says so when the bound is reached.
    - Left out: a host that calls [startPolling] from inside a call of
      the runner; objects with accessors or with a prototype of their
      own; numbers that are not integers. *)

From stdpp Require Import gmap strings list pretty.
From Equations Require Import Equations.

Set Warnings "-register-all".
Open Scope string_scope.
Open Scope list_scope.

(** ** JavaScript values *)

Module Js.

(** The values that flow through the runner: tasks and results are
    objects, failure values are of type [unknown].  Of the numbers, the
    integers are kept. *)
Inductive JsVal : Type :=
| VUndefined
| VNull
| VBool (b : bool)
| VNum (n : Z)
| VStr (s : string)
| VObj (fields : gmap string JsVal).

(** ToBoolean, as applied by [if (x)] and [x && y]. *)
Definition truthy (v : JsVal) : bool :=
  match v with
  | VUndefined | VNull => false
  | VBool b => b
  | VNum n => negb (n =? 0)%Z
  | VStr s => negb (String.eqb s "")
  | VObj _ => true
  end.

Definition is_nullish (v : JsVal) : bool :=
  match v with
  | VUndefined | VNull => true
  | _ => false
  end.

(** [o.k] on an object: a missing field reads as [undefined]. *)
Definition obj_get (o : gmap string JsVal) (k : string) : JsVal :=
  default VUndefined (o !! k).

(** [v.k] on any value.  [None] stands for the TypeError that reading
    a field off [null] or [undefined] raises.  Primitives carry none
    of the fields the runner reads. *)
Definition get_prop (v : JsVal) (k : string) : option JsVal :=
  match v with
  | VUndefined | VNull => None
  | VObj o => Some (obj_get o k)
  | _ => Some VUndefined
  end.

(** [v?.k] *)
Definition opt_chain (v : JsVal) (k : string) : JsVal :=
  default VUndefined (get_prop v k).

(** [a ?? b] *)
Definition nullish_coalesce (a b : JsVal) : JsVal :=
  if is_nullish a then b else a.

(** The integers that print digit for digit. *)
Definition safe_integer (n : Z) : bool := (Z.abs n <? 2 ^ 53)%Z.

(** The text a template literal inserts for [${v}], when there is one.
    A safe integer prints in decimal; the text of the other numbers is
    [number_text]'s.  An object is plain data: it prints as its class
    tag, unless a field of its own hides the inherited [toString]; then
    the conversion finds nothing to call and raises a TypeError, which
    is [None] here. *)
Definition to_string (number_text : Z -> string) (v : JsVal) : option string :=
  match v with
  | VUndefined => Some "undefined"
  | VNull => Some "null"
  | VBool true => Some "true"
  | VBool false => Some "false"
  | VNum n => Some (if safe_integer n then pretty n else number_text n)
  | VStr s => Some s
  | VObj o =>
      match o !! "toString" with
      | Some _ => None
      | None => Some "[object Object]"
      end
  end.

End Js.
Export Js.

Abbreviation Obj := (gmap string JsVal).

(** ** Events, the host and the runner's state *)

(** What the runner does, in program order: its calls to the services
    and to the host's callbacks, its timers, and the entries of
    [updateTaskWithRetry]. *)
Inductive Event : Type :=
| EvPoll (taskType workerId : string) (dom : option string)
    (* taskResource.poll(taskDefName, workerID, domain) *)
| EvExecute (task : Obj)                      (* worker.execute(task) *)
| EvUpdateTask (taskResult : Obj)      (* taskResource.updateTask1(r) *)
| EvOnError (error : JsVal) (task : option Obj) (* errorHandler(e, t?) *)
| EvLogDebug (msg : string)                     (* logger.debug(msg) *)
| EvLogError (msg : string) (arg : option JsVal) (* logger.error(..) *)
| EvTimer (ms : Z)                            (* setTimeout(.., ms) *)
| EvEnterUpdateWithRetry (task taskResult : Obj).
    (* entry of updateTaskWithRetry(task, taskResult) *)

(** How a call comes back: with a value, with an exception, or never. *)
Inductive Settled (A : Type) : Type :=
| Resolved (a : A)
| Rejected (e : JsVal)
| Pending.
Arguments Resolved {A} a.
Arguments Rejected {A} e.
Arguments Pending {A}.

(** The answer to a call.  While the runner is in the call the host may
    call [stopPolling]; [stop_requested] says whether it did. *)
Record Reply (A : Type) : Type := mkReply {
  stop_requested : bool;
  settled : Settled A;
}.
Arguments mkReply {A} _ _.
Arguments stop_requested {A} _.
Arguments settled {A} _.

(** The host.  Each of its parts answers from the trace up to and
    including the call it answers.  The last four fields are the
    engine's: the error objects it builds and the text it prints for the
    numbers that are not safe integers. *)
Record Env : Type := mkEnv {
  poll_reply : list Event -> Reply (option Obj);
  execute_reply : list Event -> Reply Obj;
  update_reply : list Event -> Reply unit;
  timer_reply : list Event -> bool;
  onError_reply : list Event -> Reply unit;
  logger_reply : list Event -> Reply unit;
  new_Error : string -> JsVal;
  type_error : JsVal -> string -> JsVal;
  convert_error : JsVal -> JsVal;
  number_text : Z -> string;
}.

(** Modelled from the spec: the declarations of [ConductorWorker] and
    [TaskManagerOptions] are in other files; the runner reads the
    task-type name of the worker and the worker ID, the domain and the
    poll interval of the options. *)
Record ConductorWorker : Type := mkWorker {
  taskDefName : string;
}.

Record TaskManagerOptions : Type := mkOptions {
  workerID : string;
  domain : option string;
  pollInterval : Z;
}.

Record TaskRunner : Type := mkRunner {
  worker : ConductorWorker;
  options : TaskManagerOptions;
}.

(** The mutable part of a runner, and the trace of what it did. *)
Record State : Type := mkState {
  isPolling : bool;
  trace : list Event;
}.

Definition DEFAULT_ERROR_MESSAGE : string := "An unknown error occurred".
Definition MAX_RETRIES : nat := 3.

(** ** The monad of runner methods *)

(** How a statement completes: normally, by an exception, or not at all
    (it waits on a call that never comes back). *)
Inductive Completion (A : Type) : Type :=
| Normal (a : A)
| Throw (e : JsVal)
| Hang.
Arguments Normal {A} a.
Arguments Throw {A} e.
Arguments Hang {A}.

Definition M (A : Type) : Type := State -> Completion A * State.

#[global] Instance M_mret : MRet M := fun A a st => (Normal a, st).

#[global] Instance M_bind : MBind M := fun A B k m st =>
  match m st with
  | (Normal a, st') => k a st'
  | (Throw e, st') => (Throw e, st')
  | (Hang, st') => (Hang, st')
  end.

Definition throw {A} (e : JsVal) : M A := fun st => (Throw e, st).

(** [try { body } catch (e) { handler e }] *)
Definition try_catch {A} (body : M A) (handler : JsVal -> M A) : M A :=
  fun st =>
    match body st with
    | (Normal a, st') => (Normal a, st')
    | (Throw e, st') => handler e st'
    | (Hang, st') => (Hang, st')
    end.

(** [stopPolling]: only clears the flag. *)
Definition stopPolling (st : State) : State :=
  mkState false (trace st).

Definition host_stop (stop : bool) (st : State) : State :=
  if stop then stopPolling st else st.

(** The completion of a call that came back as [s]. *)
Definition completion_of {A} (s : Settled A) : Completion A :=
  match s with
  | Resolved a => Normal a
  | Rejected e => Throw e
  | Pending => Hang
  end.

(** A call into the host, awaited or made in place: the call is
    recorded, the host may stop the runner meanwhile, and the call comes
    back as the host decides. *)
Definition await {A} (call : Event) (reply : list Event -> Reply A) : M A :=
  fun st =>
    let st1 := mkState (isPolling st) (trace st ++ [call]) in
    let r := reply (trace st1) in
    let st2 := host_stop (stop_requested r) st1 in
    (completion_of (settled r), st2).

(** [await new Promise((r) => setTimeout(() => r(true), ms))] *)
Definition sleep (E : Env) (ms : Z) : M unit :=
  fun st =>
    let st1 := mkState (isPolling st) (trace st ++ [EvTimer ms]) in
    (Normal tt, host_stop (timer_reply E (trace st1)) st1).

(** [v.k] as a statement that may raise. *)
Definition read_prop (E : Env) (v : JsVal) (k : string) : M JsVal :=
  match get_prop v k with
  | Some x => mret x
  | None => throw (type_error E v k)
  end.

(** The text of [${v}] in a template literal, as the engine prints it. *)
Definition text_of (E : Env) (v : JsVal) : option string :=
  to_string (number_text E) v.

(** [${v}] as a statement that may raise. *)
Definition text (E : Env) (v : JsVal) : M string :=
  match text_of E v with
  | Some s => mret s
  | None => throw (convert_error E v)
  end.

(** ** The runner's methods *)

(** The host's callbacks: [this.logger.debug], [this.logger.error] and
    [this.errorHandler]. *)
Definition logger_debug (E : Env) (msg : string) : M unit :=
  await (EvLogDebug msg) (logger_reply E).

Definition logger_error (E : Env) (msg : string) (arg : option JsVal)
  : M unit :=
  await (EvLogError msg arg) (logger_reply E).

Definition errorHandler (E : Env) (error : JsVal) (task : option Obj)
  : M unit :=
  await (EvOnError error task) (onError_reply E).

(** The line [handleUnknownError] logs. *)
Definition unknown_error_line (R : TaskRunner) (message stack : string)
  : string :=
  "Error for " +:+ taskDefName (worker R) +:+ ": error: " +:+ message
    +:+ ", stack: " +:+ stack.

Definition handleUnknownError (E : Env) (R : TaskRunner) (unknownError : JsVal)
  : M unit :=
  let message := VStr "" in
  let stack := VStr "" in
  c1 ← read_prop E unknownError "stack";
  stack ← (if truthy c1 then read_prop E unknownError "stack" else mret stack);
  c2 ← read_prop E unknownError "message";
  message ← (if truthy c2 then read_prop E unknownError "message"
              else mret message);
  message_text ← text E message;
  stack_text ← text E stack;
  logger_error E (unknown_error_line R message_text stack_text) None.

Definition retry_line (taskId : string) (retryCount : nat) : string :=
  "Error updating task " +:+ taskId +:+ " on retry " +:+ pretty retryCount.

Definition terminal_line (taskId : string) (retryCount : nat) : string :=
  "Unable to update task " +:+ taskId +:+ " after " +:+ pretty retryCount
    +:+ " retries".

(** One turn of the [while (retryCount < MAX_RETRIES)] loop of
    [updateTaskWithRetry].  The body of the [try] ends in [return]:
    [true] says that the method returned from there.  The [catch] block
    increments [retryCount] before it sleeps. *)
Definition update_attempt (E : Env) (task taskResult : Obj) (retryCount : nat)
  : M bool :=
  try_catch
    (await (EvUpdateTask taskResult) (update_reply E) ;;
     mret true)
    (fun error =>
       errorHandler E error (Some task) ;;
       taskId ← text E (obj_get taskResult "taskId");
       logger_error E (retry_line taskId retryCount) (Some error) ;;
       let retryCount := S retryCount in
       sleep E (Z.of_nat retryCount * 10) ;;
       mret false).

(** The loop, from the current value of [retryCount]. *)
Equations? update_loop (E : Env) (task taskResult : Obj) (retryCount : nat)
  : M unit by wf (MAX_RETRIES - retryCount) lt :=
  update_loop E task taskResult retryCount
    with decide (retryCount < MAX_RETRIES) => {
    | left _ =>
        (returned ← update_attempt E task taskResult retryCount;
         if (returned : bool) then mret tt
         else update_loop E task taskResult (S retryCount))
    | right _ =>
        (taskId ← text E (obj_get taskResult "taskId");
         logger_error E (terminal_line taskId retryCount) None) }.
Proof. unfold MAX_RETRIES in *. lia. Qed.

Definition emit (ev : Event) : M unit :=
  fun st => (Normal tt, mkState (isPolling st) (trace st ++ [ev])).

Definition updateTaskWithRetry (E : Env) (task taskResult : Obj) : M unit :=
  emit (EvEnterUpdateWithRetry task taskResult) ;;
  update_loop E task taskResult 0.

(** The record [executeTask] builds from what the worker returned:
    [{...result, workflowInstanceId: .., taskId: ..}]. *)
Definition completed_result (task result : Obj) : Obj :=
  <["taskId" := obj_get task "taskId"]>
    (<["workflowInstanceId" := obj_get task "workflowInstanceId"]> result).

(** The record [executeTask] builds in its [catch] block. *)
Definition failed_result (task : Obj) (error : JsVal) : Obj :=
  <["outputData" := VObj ∅]>
    (<["status" := VStr "FAILED"]>
       (<["reasonForIncompletion" :=
            nullish_coalesce (opt_chain error "message")
              (VStr DEFAULT_ERROR_MESSAGE)]>
          (<["taskId" := obj_get task "taskId"]>
             (<["workflowInstanceId" := obj_get task "workflowInstanceId"]>
                ∅)))).

Definition executeTask (E : Env) (task : Obj) : M unit :=
  try_catch
    (result ← await (EvExecute task) (execute_reply E);
     updateTaskWithRetry E task (completed_result task result) ;;
     taskId ← text E (obj_get task "taskId");
     logger_debug E ("Finished polling for task " +:+ taskId))
    (fun error =>
       updateTaskWithRetry E task (failed_result task error) ;;
       errorHandler E error (Some task) ;;
       taskId ← text E (obj_get task "taskId");
       logger_error E ("Error executing " +:+ taskId) (Some error)).

(** The request [poll] sends to the queue service. *)
Definition poll_request (R : TaskRunner) : Event :=
  EvPoll (taskDefName (worker R)) (workerID (options R)) (domain (options R)).

(** The [try] block of the loop of [poll]. *)
Definition poll_try (E : Env) (R : TaskRunner) : M unit :=
  task ← await (poll_request R) (poll_reply E);
  match task with
  | Some t =>
      if truthy (obj_get t "taskId") then executeTask E t
      else logger_debug E ("No tasks for " +:+ taskDefName (worker R))
  | None => logger_debug E ("No tasks for " +:+ taskDefName (worker R))
  end.

(** Its [catch] block. *)
Definition poll_catch (E : Env) (R : TaskRunner) (unknownError : JsVal)
  : M unit :=
  handleUnknownError E R unknownError ;;
  errorHandler E unknownError None.

(** One turn of the [while (this.isPolling)] loop of [poll]. *)
Definition poll_iteration (E : Env) (R : TaskRunner) : M unit :=
  try_catch (poll_try E R) (poll_catch E R) ;;
  sleep E (pollInterval (options R)).

(** The promise of [poll] after at most [fuel] turns of its loop. *)
Inductive LoopResult : Type :=
| Finished (c : Completion unit)
| StillPolling.

Fixpoint poll (E : Env) (R : TaskRunner) (fuel : nat) (st : State)
  : LoopResult * State :=
  if isPolling st then
    match fuel with
    | 0 => (StillPolling, st)
    | S fuel' =>
        match poll_iteration E R st with
        | (Normal _, st') => poll E R fuel' st'
        | (c, st') => (Finished c, st')
        end
    end
  else (Finished (Normal tt), st).

Definition startPolling (E : Env) (R : TaskRunner) (fuel : nat) (st : State)
  : LoopResult * State :=
  if isPolling st then
    (Finished (Throw (new_Error E "Runner is already started")), st)
  else poll E R fuel (mkState true (trace st)).

(** ** Reading traces *)

(** The arguments of the calls of [updateTaskWithRetry] in a trace. *)
Definition invocations (evs : list Event) : list (Obj * Obj) :=
  omap (fun ev => match ev with
                  | EvEnterUpdateWithRetry task taskResult =>
                      Some (task, taskResult)
                  | _ => None
                  end) evs.

(** The records handed to [taskResource.updateTask1] in a trace. *)
Definition updates (evs : list Event) : list Obj :=
  omap (fun ev => match ev with
                  | EvUpdateTask taskResult => Some taskResult
                  | _ => None
                  end) evs.

(** The tasks handed to [worker.execute] in a trace. *)
Definition executions (evs : list Event) : list Obj :=
  omap (fun ev => match ev with
                  | EvExecute task => Some task
                  | _ => None
                  end) evs.

(** The requests to the queue service in a trace. *)
Definition is_fetch (ev : Event) : bool :=
  match ev with
  | EvPoll _ _ _ => true
  | _ => false
  end.

Definition fetches (evs : list Event) : list Event := filter is_fetch evs.

(** The calls of the logger and of the error handler, and the timers. *)
Definition quiet (ev : Event) : bool :=
  match ev with
  | EvOnError _ _ | EvLogDebug _ | EvLogError _ _ | EvTimer _ => true
  | _ => false
  end.

(** ** Calls that come back *)

Definition came_back {A} (s : Settled A) : bool :=
  match s with
  | Pending => false
  | _ => true
  end.

Definition returned {A} (s : Settled A) : bool :=
  match s with
  | Resolved _ => true
  | _ => false
  end.

(** The call [ev], made after [h], came back: the promise of a service
    settled, one way or the other; the logger or the error handler
    returned. *)
Definition call_returns (E : Env) (h : list Event) (ev : Event) : bool :=
  match ev with
  | EvPoll _ _ _ => came_back (settled (poll_reply E (h ++ [ev])))
  | EvExecute _ => came_back (settled (execute_reply E (h ++ [ev])))
  | EvUpdateTask _ => came_back (settled (update_reply E (h ++ [ev])))
  | EvOnError _ _ => returned (settled (onError_reply E (h ++ [ev])))
  | EvLogDebug _ | EvLogError _ _ =>
      returned (settled (logger_reply E (h ++ [ev])))
  | EvTimer _ | EvEnterUpdateWithRetry _ _ => true
  end.

(** Every call among the events [evs], made after [h], came back. *)
Fixpoint calls_return (E : Env) (h evs : list Event) : bool :=
  match evs with
  | [] => true
  | ev :: evs' => call_returns E h ev && calls_return E (h ++ [ev]) evs'
  end.

(** How a call that did not come back with a value ends its caller. *)
Definition interrupted {A B} (s : Settled A) : option (Completion B) :=
  match s with
  | Resolved _ => None
  | Rejected e => Some (Throw e)
  | Pending => Some Hang
  end.

(** ** Runs, read off the trace *)

(** What a method adds to the trace and how it completes, as a relation
    between the trace behind it, the events it adds and its
    completion. *)
Definition Spec (A : Type) : Type :=
  list Event -> list Event -> Completion A -> Prop.

Definition runs {A} (m : M A) (S : Spec A) : Prop :=
  forall st, exists c st' evs,
    m st = (c, st') /\ trace st' = trace st ++ evs /\ S (trace st) evs c.

Definition pure_spec {A} (c0 : Completion A) : Spec A :=
  fun _ evs c => evs = [] /\ c = c0.

Definition call_spec {A} (call : Event) (reply : list Event -> Reply A)
  : Spec A :=
  fun h evs c =>
    evs = [call] /\ c = completion_of (settled (reply (h ++ [call]))).

Definition timer_spec (ms : Z) : Spec unit :=
  fun _ evs c => evs = [EvTimer ms] /\ c = Normal tt.

Definition mark_spec (ev : Event) : Spec unit :=
  fun _ evs c => evs = [ev] /\ c = Normal tt.

Definition seq_spec {A B} (S1 : Spec A) (S2 : A -> Spec B) : Spec B :=
  fun h evs c =>
    (exists a evs1 evs2,
       S1 h evs1 (Normal a) /\ S2 a (h ++ evs1) evs2 c /\ evs = evs1 ++ evs2)
    \/ (exists e, S1 h evs (Throw e) /\ c = Throw e)
    \/ (S1 h evs Hang /\ c = Hang).

Definition catch_spec {A} (S1 : Spec A) (S2 : JsVal -> Spec A) : Spec A :=
  fun h evs c =>
    (exists a, S1 h evs (Normal a) /\ c = Normal a)
    \/ (exists e evs1 evs2,
          S1 h evs1 (Throw e) /\ S2 e (h ++ evs1) evs2 c /\ evs = evs1 ++ evs2)
    \/ (S1 h evs Hang /\ c = Hang).

(** What a failed delivery attempt adds to the trace when the error
    handler and the logger return; [taskId] is the text of the record's
    taskId. *)
Definition failed_attempt (task taskResult : Obj) (taskId : string)
    (retryCount : nat) (error : JsVal) : list Event :=
  [ EvUpdateTask taskResult;
    EvOnError error (Some task);
    EvLogError (retry_line taskId retryCount) (Some error);
    EvTimer (Z.of_nat (S retryCount) * 10) ].

(** The runs of the retry loop from [retryCount], with the trace [h]
    behind it.  [update_loop_runs] shows that every run of [update_loop]
    is one of them. *)
Inductive UpdateRun (E : Env) (task taskResult : Obj)
  : nat -> list Event -> list Event -> Completion unit -> Prop :=
| run_delivered retryCount h :
    retryCount < MAX_RETRIES ->
    settled (update_reply E (h ++ [EvUpdateTask taskResult])) = Resolved tt ->
    UpdateRun E task taskResult retryCount h
      [EvUpdateTask taskResult] (Normal tt)
| run_pending retryCount h :
    retryCount < MAX_RETRIES ->
    settled (update_reply E (h ++ [EvUpdateTask taskResult])) = Pending ->
    UpdateRun E task taskResult retryCount h
      [EvUpdateTask taskResult] Hang
| run_handler_stops retryCount h e c :
    retryCount < MAX_RETRIES ->
    settled (update_reply E (h ++ [EvUpdateTask taskResult])) = Rejected e ->
    interrupted
      (settled (onError_reply E
                  (h ++ [EvUpdateTask taskResult; EvOnError e (Some task)])))
      = Some c ->
    UpdateRun E task taskResult retryCount h
      [EvUpdateTask taskResult; EvOnError e (Some task)] c
| run_text_raises retryCount h e :
    retryCount < MAX_RETRIES ->
    settled (update_reply E (h ++ [EvUpdateTask taskResult])) = Rejected e ->
    settled (onError_reply E
               (h ++ [EvUpdateTask taskResult; EvOnError e (Some task)]))
      = Resolved tt ->
    text_of E (obj_get taskResult "taskId") = None ->
    UpdateRun E task taskResult retryCount h
      [EvUpdateTask taskResult; EvOnError e (Some task)]
      (Throw (convert_error E (obj_get taskResult "taskId")))
| run_logger_stops retryCount h e taskId c :
    retryCount < MAX_RETRIES ->
    settled (update_reply E (h ++ [EvUpdateTask taskResult])) = Rejected e ->
    settled (onError_reply E
               (h ++ [EvUpdateTask taskResult; EvOnError e (Some task)]))
      = Resolved tt ->
    text_of E (obj_get taskResult "taskId") = Some taskId ->
    interrupted
      (settled (logger_reply E
                  (h ++ [EvUpdateTask taskResult; EvOnError e (Some task);
                         EvLogError (retry_line taskId retryCount) (Some e)])))
      = Some c ->
    UpdateRun E task taskResult retryCount h
      [EvUpdateTask taskResult; EvOnError e (Some task);
       EvLogError (retry_line taskId retryCount) (Some e)] c
| run_retry retryCount h e taskId evs c :
    retryCount < MAX_RETRIES ->
    settled (update_reply E (h ++ [EvUpdateTask taskResult])) = Rejected e ->
    settled (onError_reply E
               (h ++ [EvUpdateTask taskResult; EvOnError e (Some task)]))
      = Resolved tt ->
    text_of E (obj_get taskResult "taskId") = Some taskId ->
    settled (logger_reply E
               (h ++ [EvUpdateTask taskResult; EvOnError e (Some task);
                      EvLogError (retry_line taskId retryCount) (Some e)]))
      = Resolved tt ->
    UpdateRun E task taskResult (S retryCount)
      (h ++ failed_attempt task taskResult taskId retryCount e) evs c ->
    UpdateRun E task taskResult retryCount h
      (failed_attempt task taskResult taskId retryCount e ++ evs) c
| run_exhausted retryCount h taskId :
    ~ retryCount < MAX_RETRIES ->
    text_of E (obj_get taskResult "taskId") = Some taskId ->
    UpdateRun E task taskResult retryCount h
      [EvLogError (terminal_line taskId retryCount) None]
      (completion_of
         (settled (logger_reply E
                     (h ++ [EvLogError (terminal_line taskId retryCount)
                              None]))))
| run_exhausted_text_raises retryCount h :
    ~ retryCount < MAX_RETRIES ->
    text_of E (obj_get taskResult "taskId") = None ->
    UpdateRun E task taskResult retryCount h []
      (Throw (convert_error E (obj_get taskResult "taskId"))).

(** The runs of the loop in which the error handler and the logger
    returned each time: a delivery, a failed attempt followed by such a
    run from [retryCount + 1], or the terminal line. *)
Inductive SmoothRun (E : Env) (task taskResult : Obj) (taskId : string)
  : nat -> list Event -> list Event -> Prop :=
| smooth_delivered retryCount h :
    retryCount < MAX_RETRIES ->
    settled (update_reply E (h ++ [EvUpdateTask taskResult])) = Resolved tt ->
    SmoothRun E task taskResult taskId retryCount h [EvUpdateTask taskResult]
| smooth_retry retryCount h e evs :
    retryCount < MAX_RETRIES ->
    settled (update_reply E (h ++ [EvUpdateTask taskResult])) = Rejected e ->
    SmoothRun E task taskResult taskId (S retryCount)
      (h ++ failed_attempt task taskResult taskId retryCount e) evs ->
    SmoothRun E task taskResult taskId retryCount h
      (failed_attempt task taskResult taskId retryCount e ++ evs)
| smooth_exhausted retryCount h :
    ~ retryCount < MAX_RETRIES ->
    SmoothRun E task taskResult taskId retryCount h
      [EvLogError (terminal_line taskId retryCount) None].

(** The runs of [updateTaskWithRetry]: its entry, then a run of the
    loop from zero. *)
Definition EnteredRun (E : Env) (task taskResult : Obj) : Spec unit :=
  fun h evs c =>
    exists loop,
      evs = EvEnterUpdateWithRetry task taskResult :: loop
      /\ UpdateRun E task taskResult 0
           (h ++ [EvEnterUpdateWithRetry task taskResult]) loop c.

(** The calls of one entry of [updateTaskWithRetry]: between one and
    three deliveries, all of its record, and no other call to a
    service. *)
Definition one_update (task taskResult : Obj) (evs : list Event) : Prop :=
  invocations evs = [(task, taskResult)]
  /\ (exists k, updates evs = replicate k taskResult /\ 1 <= k <= MAX_RETRIES)
  /\ executions evs = []
  /\ fetches evs = [].

(** The rest of the [try] block of [executeTask], once the worker has
    returned [result]: the update of the completed record, then the
    debug line. *)
Inductive FinishRun (E : Env) (task result : Obj)
  : list Event -> list Event -> Completion unit -> Prop :=
| finish_update_stops h evs c :
    EnteredRun E task (completed_result task result) h evs c ->
    c <> Normal tt ->
    FinishRun E task result h evs c
| finish_text_raises h evs :
    EnteredRun E task (completed_result task result) h evs (Normal tt) ->
    text_of E (obj_get task "taskId") = None ->
    FinishRun E task result h evs
      (Throw (convert_error E (obj_get task "taskId")))
| finish_logged h evs taskId :
    EnteredRun E task (completed_result task result) h evs (Normal tt) ->
    text_of E (obj_get task "taskId") = Some taskId ->
    FinishRun E task result h
      (evs ++ [EvLogDebug ("Finished polling for task " +:+ taskId)])
      (completion_of
         (settled (logger_reply E
                     (h ++ evs ++
                        [EvLogDebug ("Finished polling for task "
                                       +:+ taskId)])))).

(** The [catch] block of [executeTask] for the error [error]: the
    update of the failed record, the error handler, the error line. *)
Inductive ReportRun (E : Env) (task : Obj) (error : JsVal)
  : list Event -> list Event -> Completion unit -> Prop :=
| report_update_stops h evs c :
    EnteredRun E task (failed_result task error) h evs c ->
    c <> Normal tt ->
    ReportRun E task error h evs c
| report_handler_stops h evs c :
    EnteredRun E task (failed_result task error) h evs (Normal tt) ->
    interrupted
      (settled (onError_reply E (h ++ evs ++ [EvOnError error (Some task)])))
      = Some c ->
    ReportRun E task error h (evs ++ [EvOnError error (Some task)]) c
| report_text_raises h evs :
    EnteredRun E task (failed_result task error) h evs (Normal tt) ->
    settled (onError_reply E (h ++ evs ++ [EvOnError error (Some task)]))
      = Resolved tt ->
    text_of E (obj_get task "taskId") = None ->
    ReportRun E task error h (evs ++ [EvOnError error (Some task)])
      (Throw (convert_error E (obj_get task "taskId")))
| report_logged h evs taskId :
    EnteredRun E task (failed_result task error) h evs (Normal tt) ->
    settled (onError_reply E (h ++ evs ++ [EvOnError error (Some task)]))
      = Resolved tt ->
    text_of E (obj_get task "taskId") = Some taskId ->
    ReportRun E task error h
      (evs ++ [EvOnError error (Some task);
               EvLogError ("Error executing " +:+ taskId) (Some error)])
      (completion_of
         (settled (logger_reply E
                     (h ++ evs ++
                        [EvOnError error (Some task);
                         EvLogError ("Error executing " +:+ taskId)
                           (Some error)])))).

(** The runs of [executeTask]. *)
Inductive ExecRun (E : Env) (task : Obj)
  : list Event -> list Event -> Completion unit -> Prop :=
| exec_pending h :
    settled (execute_reply E (h ++ [EvExecute task])) = Pending ->
    ExecRun E task h [EvExecute task] Hang
| exec_rejected h error evs c :
    settled (execute_reply E (h ++ [EvExecute task])) = Rejected error ->
    ReportRun E task error (h ++ [EvExecute task]) evs c ->
    ExecRun E task h (EvExecute task :: evs) c
| exec_finished h result evs c :
    settled (execute_reply E (h ++ [EvExecute task])) = Resolved result ->
    FinishRun E task result (h ++ [EvExecute task]) evs c ->
    (forall error, c <> Throw error) ->
    ExecRun E task h (EvExecute task :: evs) c
| exec_recovered h result evs error evs' c :
    settled (execute_reply E (h ++ [EvExecute task])) = Resolved result ->
    FinishRun E task result (h ++ [EvExecute task]) evs (Throw error) ->
    ReportRun E task error (h ++ EvExecute task :: evs) evs' c ->
    ExecRun E task h (EvExecute task :: evs ++ evs') c.

(** The runs of [executeTask] in which the logger and the error handler
    returned each time and every promise settled. *)
Definition SmoothExec (E : Env) (task : Obj) (taskId : string)
    (h evs : list Event) : Prop :=
  exists taskResult loop tail,
    evs = EvExecute task :: EvEnterUpdateWithRetry task taskResult
            :: loop ++ tail
    /\ SmoothRun E task taskResult taskId 0
         (h ++ [EvExecute task; EvEnterUpdateWithRetry task taskResult]) loop
    /\ ((exists result,
           settled (execute_reply E (h ++ [EvExecute task])) = Resolved result
           /\ taskResult = completed_result task result
           /\ tail = [EvLogDebug ("Finished polling for task " +:+ taskId)])
        \/ (exists error,
              settled (execute_reply E (h ++ [EvExecute task]))
                = Rejected error
              /\ taskResult = failed_result task error
              /\ tail = [EvOnError error (Some task);
                         EvLogError ("Error executing " +:+ taskId)
                           (Some error)])).

(** The field [handleUnknownError] keeps: its value when truthy, the
    empty string otherwise. *)
Definition kept_field (error : JsVal) (k : string) : JsVal :=
  if truthy (opt_chain error k) then opt_chain error k else VStr "".

(** [task && task.taskId] is falsy. *)
Definition no_task (task : option Obj) : Prop :=
  match task with
  | None => True
  | Some t => truthy (obj_get t "taskId") = false
  end.

(** The runs of the [catch] block of [poll] for the value [u]. *)
Inductive CatchRun (E : Env) (R : TaskRunner) (u : JsVal)
  : list Event -> list Event -> Completion unit -> Prop :=
| caught_nullish h :
    is_nullish u = true ->
    CatchRun E R u h [] (Throw (type_error E u "stack"))
| caught_message_raises h :
    is_nullish u = false ->
    text_of E (kept_field u "message") = None ->
    CatchRun E R u h [] (Throw (convert_error E (kept_field u "message")))
| caught_stack_raises h message :
    is_nullish u = false ->
    text_of E (kept_field u "message") = Some message ->
    text_of E (kept_field u "stack") = None ->
    CatchRun E R u h [] (Throw (convert_error E (kept_field u "stack")))
| caught_logger_stops h message stack c :
    is_nullish u = false ->
    text_of E (kept_field u "message") = Some message ->
    text_of E (kept_field u "stack") = Some stack ->
    interrupted
      (settled (logger_reply E
                  (h ++ [EvLogError (unknown_error_line R message stack)
                           None])))
      = Some c ->
    CatchRun E R u h
      [EvLogError (unknown_error_line R message stack) None] c
| caught_reported h message stack :
    is_nullish u = false ->
    text_of E (kept_field u "message") = Some message ->
    text_of E (kept_field u "stack") = Some stack ->
    settled (logger_reply E
               (h ++ [EvLogError (unknown_error_line R message stack) None]))
      = Resolved tt ->
    CatchRun E R u h
      [EvLogError (unknown_error_line R message stack) None; EvOnError u None]
      (completion_of
         (settled (onError_reply E
                     (h ++ [EvLogError (unknown_error_line R message stack)
                              None;
                            EvOnError u None])))).

(** The runs of the [try] block of [poll]. *)
Inductive BodyRun (E : Env) (R : TaskRunner)
  : list Event -> list Event -> Completion unit -> Prop :=
| body_fetch_stops h c :
    interrupted (settled (poll_reply E (h ++ [poll_request R]))) = Some c ->
    BodyRun E R h [poll_request R] c
| body_idle h task :
    settled (poll_reply E (h ++ [poll_request R])) = Resolved task ->
    no_task task ->
    BodyRun E R h
      [poll_request R; EvLogDebug ("No tasks for " +:+ taskDefName (worker R))]
      (completion_of
         (settled (logger_reply E
                     (h ++ [poll_request R;
                            EvLogDebug ("No tasks for "
                                          +:+ taskDefName (worker R))]))))
| body_task h t evs c :
    settled (poll_reply E (h ++ [poll_request R])) = Resolved (Some t) ->
    truthy (obj_get t "taskId") = true ->
    ExecRun E t (h ++ [poll_request R]) evs c ->
    BodyRun E R h (poll_request R :: evs) c.

(** The runs of one turn of the loop of [poll]. *)
Inductive TurnRun (E : Env) (R : TaskRunner)
  : list Event -> list Event -> Completion unit -> Prop :=
| turn_slept h evs :
    BodyRun E R h evs (Normal tt) ->
    TurnRun E R h (evs ++ [EvTimer (pollInterval (options R))]) (Normal tt)
| turn_hangs h evs :
    BodyRun E R h evs Hang ->
    TurnRun E R h evs Hang
| turn_caught h evs u evs' :
    BodyRun E R h evs (Throw u) ->
    CatchRun E R u (h ++ evs) evs' (Normal tt) ->
    TurnRun E R h (evs ++ evs' ++ [EvTimer (pollInterval (options R))])
      (Normal tt)
| turn_rejected h evs u evs' c :
    BodyRun E R h evs (Throw u) ->
    CatchRun E R u (h ++ evs) evs' c ->
    c <> Normal tt ->
    TurnRun E R h (evs ++ evs') c.

(** The calls of a turn after its request: no other request, at most
    one task executed, and every record handed to [updateTaskWithRetry]
    is for that task and carries its identifiers. *)
Definition task_calls (evs : list Event) : Prop :=
  fetches evs = []
  /\ length (executions evs) <= 1
  /\ length (invocations evs) <= 2 * length (executions evs)
  /\ (forall t r,
        (t, r) ∈ invocations evs ->
        t ∈ executions evs
        /\ obj_get r "taskId" = obj_get t "taskId"
        /\ obj_get r "workflowInstanceId" = obj_get t "workflowInstanceId").

(** ** Reading the flag *)

(** Methods that never set the [isPolling] flag: run on a stopped
    runner, they leave it stopped. *)
Definition stays_stopped {A} (m : M A) : Prop :=
  forall st, isPolling st = false -> isPolling (m st).2 = false.

(** Methods that do not read the flag: their completion and their
    events are the same whether it is set or clear. *)
Definition flag_blind {A} (m : M A) : Prop :=
  forall h flag1 flag2,
    (m (mkState flag1 h)).1 = (m (mkState flag2 h)).1
    /\ trace (m (mkState flag1 h)).2 = trace (m (mkState flag2 h)).2.

(** Strings, numbers and booleans. *)
Definition is_primitive (v : JsVal) : bool :=
  match v with
  | VBool _ | VNum _ | VStr _ => true
  | _ => false
  end.

(** A value that has a text. *)
Definition printable (E : Env) (v : JsVal) : Prop :=
  text_of E v <> None.

(** ** Sample hosts *)

Module Sample.

(** The task and the runner of the examples. *)
Definition task_t1 : Obj :=
  {[ "taskId" := VStr "t1"; "workflowInstanceId" := VStr "w1" ]}.

Definition runner : TaskRunner :=
  mkRunner (mkWorker "greet") (mkOptions "worker-1" None 100).

Definition boom : JsVal := VObj {[ "message" := VStr "boom" ]}.
Definition blank : JsVal := VObj {[ "message" := VStr "" ]}.
Definition refused : JsVal := VObj {[ "message" := VStr "ECONNREFUSED" ]}.
Definition oops : JsVal := VObj {[ "message" := VStr "oops" ]}.

Definition completed : Obj :=
  {[ "status" := VStr "COMPLETED";
     "outputData" := VObj {[ "x" := VNum 1 ]} ]}.

(** An engine that words its errors as V8 does.  Of the numbers beyond
    the safe integers, the samples use 10^21 only. *)
Definition v8_Error (message : string) : JsVal :=
  VObj {[ "message" := VStr message ]}.

Definition v8_TypeError (v : JsVal) (k : string) : JsVal :=
  VObj {[ "message" :=
            VStr ("Cannot read properties of "
                    +:+ match v with VNull => "null" | _ => "undefined" end
                    +:+ " (reading '" +:+ k +:+ "')") ]}.

Definition v8_convert_error (v : JsVal) : JsVal :=
  VObj {[ "message" := VStr "Cannot convert object to primitive value" ]}.

Definition v8_number_text (n : Z) : string :=
  if (n =? 10 ^ 21)%Z then "1e+21" else pretty n.

(** A callback that returns, and one that raises [oops]. *)
Definition returning : list Event -> Reply unit :=
  fun _ => mkReply false (Resolved tt).

Definition raising : list Event -> Reply unit :=
  fun _ => mkReply false (Rejected oops).

(** A host whose services always settle the same way, whose logger and
    error handler return, and that stops the runner during a timer
    when [stop] is set. *)
Definition host (fetched : Settled (option Obj)) (executed : Settled Obj)
    (updated : Settled unit) (stop : bool) : Env :=
  mkEnv (fun _ => mkReply false fetched)
        (fun _ => mkReply false executed)
        (fun _ => mkReply false updated)
        (fun _ => stop)
        returning returning
        v8_Error v8_TypeError v8_convert_error v8_number_text.

(** The worker raises "boom" and the update is delivered. *)
Definition worker_raises : Env :=
  host (Resolved (Some task_t1)) (Rejected boom) (Resolved tt) true.

(** The worker raises an error whose message is the empty string. *)
Definition worker_raises_blank : Env :=
  host (Resolved (Some task_t1)) (Rejected blank) (Resolved tt) true.

(** The worker returns and the update is delivered. *)
Definition worker_returns : Env :=
  host (Resolved (Some task_t1)) (Resolved completed) (Resolved tt) true.

(** The queue is empty. *)
Definition queue_empty : Env :=
  host (Resolved None) (Resolved completed) (Resolved tt) true.

(** The queue service is down: the fetch and the update fail. *)
Definition service_down : Env :=
  host (Rejected refused) (Resolved completed) (Rejected refused) true.

(** The fetch is rejected with [undefined]. *)
Definition fetch_rejects_undefined : Env :=
  host (Rejected VUndefined) (Resolved completed) (Resolved tt) true.

(** The worker returns, the update fails, and the error handler
    raises. *)
Definition handler_raises : Env :=
  mkEnv (fun _ => mkReply false (Resolved (Some task_t1)))
        (fun _ => mkReply false (Resolved completed))
        (fun _ => mkReply false (Rejected refused))
        (fun _ => true)
        raising returning
        v8_Error v8_TypeError v8_convert_error v8_number_text.

(** The queue is empty and the logger raises on a debug line. *)
Definition debug_raises : Env :=
  mkEnv (fun _ => mkReply false (Resolved None))
        (fun _ => mkReply false (Resolved completed))
        (fun _ => mkReply false (Resolved tt))
        (fun _ => true)
        returning
        (fun h => match last h with
                  | Some (EvLogDebug _) => mkReply false (Rejected oops)
                  | _ => mkReply false (Resolved tt)
                  end)
        v8_Error v8_TypeError v8_convert_error v8_number_text.

(** The fetch fails and the error handler raises. *)
Definition fetch_fails_handler_raises : Env :=
  mkEnv (fun _ => mkReply false (Rejected refused))
        (fun _ => mkReply false (Resolved completed))
        (fun _ => mkReply false (Resolved tt))
        (fun _ => true)
        raising returning
        v8_Error v8_TypeError v8_convert_error v8_number_text.

Definition started : State := mkState true [].
Definition stopped : State := mkState false [].

End Sample.

(** More hosts: one that calls [stopPolling] while the fetch is
    pending, and one that never stops the runner. *)
Module MoreSamples.


Definition never_stopped : Env :=
  Sample.host (Resolved None) (Resolved Sample.completed) (Resolved tt) false.

(** A worker result with fields beyond status and output, and with a
    taskId of its own. *)
Definition verbose : Obj :=
  {[ "status" := VStr "IN_PROGRESS";
     "callbackAfterSeconds" := VNum 30;
     "taskId" := VStr "forged" ]}.

Definition worker_returns_verbose : Env :=
  Sample.host (Resolved (Some Sample.task_t1)) (Resolved verbose)
    (Resolved tt) true.

(** An error whose message is the number 10^21. *)
Definition huge : JsVal := VObj {[ "message" := VNum (10 ^ 21) ]}.

End MoreSamples.

(** * How the monad runs *)

Section Running.

Context {A B : Type}.

Lemma run_bind (m : M A) (k : A -> M B) (st : State) :
  (m ≫= k) st =
  match m st with
  | (Normal a, st') => k a st'
  | (Throw e, st') => (Throw e, st')
  | (Hang, st') => (Hang, st')
  end.
Proof. reflexivity. Qed.

Lemma run_bind_normal (m : M A) (k : A -> M B) st a st' :
  m st = (Normal a, st') -> (m ≫= k) st = k a st'.
Proof. intros Hm. rewrite run_bind, Hm. reflexivity. Qed.

Lemma run_bind_throw (m : M A) (k : A -> M B) st e st' :
  m st = (Throw e, st') -> (m ≫= k) st = (Throw e, st').
Proof. intros Hm. rewrite run_bind, Hm. reflexivity. Qed.

Lemma run_bind_hang (m : M A) (k : A -> M B) st st' :
  m st = (Hang, st') -> (m ≫= k) st = (Hang, st').
Proof. intros Hm. rewrite run_bind, Hm. reflexivity. Qed.

Lemma run_try_normal (m : M A) (h : JsVal -> M A) st a st' :
  m st = (Normal a, st') -> try_catch m h st = (Normal a, st').
Proof. intros Hm. unfold try_catch. rewrite Hm. reflexivity. Qed.

Lemma run_try_throw (m : M A) (h : JsVal -> M A) st e st' :
  m st = (Throw e, st') -> try_catch m h st = h e st'.
Proof. intros Hm. unfold try_catch. rewrite Hm. reflexivity. Qed.

Lemma run_try_hang (m : M A) (h : JsVal -> M A) st st' :
  m st = (Hang, st') -> try_catch m h st = (Hang, st').
Proof. intros Hm. unfold try_catch. rewrite Hm. reflexivity. Qed.

End Running.

Lemma trace_host_stop b st : trace (host_stop b st) = trace st.
Proof. destruct b; reflexivity. Qed.

(** ** Methods, step by step *)

Lemma runs_weaken {A} (m : M A) (S S' : Spec A) :
  runs m S -> (forall h evs c, S h evs c -> S' h evs c) -> runs m S'.
Proof.
  intros Hm Himp st. destruct (Hm st) as (c & st' & evs & Hrun & Htr & HS).
  exists c, st', evs. auto.
Qed.

Lemma runs_mret {A} (a : A) : runs (mret a) (pure_spec (Normal a)).
Proof.
  intros st. exists (Normal a), st, []. rewrite app_nil_r. by repeat split.
Qed.

Lemma runs_throw {A} e : runs (@throw A e) (pure_spec (Throw e)).
Proof.
  intros st. exists (Throw e), st, []. rewrite app_nil_r. by repeat split.
Qed.

Lemma runs_emit ev : runs (emit ev) (mark_spec ev).
Proof. intros st. eexists _, _, [ev]. by repeat split. Qed.

Lemma runs_await {A} call (reply : list Event -> Reply A) :
  runs (await call reply) (call_spec call reply).
Proof.
  intros st. eexists _, _, [call]. unfold await. simpl.
  split; [reflexivity |]. split; [apply trace_host_stop |]. by split.
Qed.

Lemma runs_sleep E ms : runs (sleep E ms) (timer_spec ms).
Proof.
  intros st. eexists _, _, [EvTimer ms]. unfold sleep.
  split; [reflexivity |]. split; [apply trace_host_stop |]. by split.
Qed.

Lemma runs_bind {A B} (m : M A) (k : A -> M B) S1 S2 :
  runs m S1 -> (forall a, runs (k a) (S2 a)) -> runs (m ≫= k) (seq_spec S1 S2).
Proof.
  intros Hm Hk st. rewrite run_bind.
  destruct (Hm st) as (c1 & st1 & evs1 & Hrun1 & Htr1 & HS1). rewrite Hrun1.
  destruct c1 as [a | e |].
  - destruct (Hk a st1) as (c2 & st2 & evs2 & Hrun2 & Htr2 & HS2).
    exists c2, st2, (evs1 ++ evs2). split; [exact Hrun2 |].
    split; [by rewrite Htr2, Htr1, app_assoc |].
    left. exists a, evs1, evs2. rewrite Htr1 in HS2. by repeat split.
  - exists (Throw e), st1, evs1. repeat split; [exact Htr1 |].
    right. left. eauto.
  - exists Hang, st1, evs1. repeat split; [exact Htr1 |]. right. right. eauto.
Qed.

Lemma runs_try_catch {A} (m : M A) (handler : JsVal -> M A) S1 S2 :
  runs m S1 -> (forall e, runs (handler e) (S2 e)) ->
  runs (try_catch m handler) (catch_spec S1 S2).
Proof.
  intros Hm Hh st. unfold try_catch.
  destruct (Hm st) as (c1 & st1 & evs1 & Hrun1 & Htr1 & HS1). rewrite Hrun1.
  destruct c1 as [a | e |].
  - exists (Normal a), st1, evs1. repeat split; [exact Htr1 |]. left. eauto.
  - destruct (Hh e st1) as (c2 & st2 & evs2 & Hrun2 & Htr2 & HS2).
    exists c2, st2, (evs1 ++ evs2). split; [exact Hrun2 |].
    split; [by rewrite Htr2, Htr1, app_assoc |].
    right. left. exists e, evs1, evs2. rewrite Htr1 in HS2. by repeat split.
  - exists Hang, st1, evs1. repeat split; [exact Htr1 |]. right. right. eauto.
Qed.

Lemma runs_text E v :
  runs (text E v)
    (pure_spec match text_of E v with
               | Some s => Normal s
               | None => Throw (convert_error E v)
               end).
Proof.
  unfold text. destruct (text_of E v); [apply runs_mret | apply runs_throw].
Qed.

Lemma runs_read_prop E v k :
  runs (read_prop E v k)
    (pure_spec match get_prop v k with
               | Some x => Normal x
               | None => Throw (type_error E v k)
               end).
Proof.
  unfold read_prop. destruct (get_prop v k); [apply runs_mret | apply runs_throw].
Qed.

(** Taking a composed run apart. *)
Ltac spec_cases :=
  repeat match goal with
         | H : seq_spec _ _ _ _ _ |- _ =>
             destruct H as [(? & ? & ? & ? & ? & ?) | [(? & ? & ?) | (? & ?)]]
         | H : catch_spec _ _ _ _ _ |- _ =>
             destruct H as [(? & ? & ?) | [(? & ? & ? & ? & ? & ?) | (? & ?)]]
         | H : pure_spec _ _ _ _ |- _ => destruct H as [? ?]
         | H : call_spec _ _ _ _ _ |- _ => destruct H as [? ?]
         | H : timer_spec _ _ _ _ |- _ => destruct H as [? ?]
         | H : mark_spec _ _ _ _ |- _ => destruct H as [? ?]
         end.

Ltac simp_eqs :=
  repeat match goal with
         | H : ?x = _ |- _ => is_var x; subst x
         | H : _ = ?x |- _ => is_var x; subst x
         | H : _ = _ |- _ => discriminate H
         | H : Normal _ = Normal _ |- _ => injection H as H
         | H : Throw _ = Throw _ |- _ => injection H as H
         | H : Some _ = Some _ |- _ => injection H as H
         | x : unit |- _ => destruct x
         end.

Ltac tidy :=
  repeat first [ progress rewrite app_nil_r in *
               | progress rewrite <- app_assoc in *
               | progress cbn [app] in * ].

Ltac reply_cases :=
  repeat match goal with
         | H : _ = completion_of (settled ?r) |- _ =>
             let Hs := fresh "Hs" in
             destruct (settled r) as [[] | ? | ] eqn:Hs; simpl in H;
             simp_eqs
         | H : _ = match text_of ?E ?v with _ => _ end |- _ =>
             let Ht := fresh "Ht" in
             destruct (text_of E v) eqn:Ht; simp_eqs
         end.

Create HintDb runs.
#[local] Hint Constructors UpdateRun : runs.
#[local] Hint Extern 1 (interrupted (settled ?r) = _) =>
  match goal with
  | H : settled r = _ |- _ => rewrite H; reflexivity
  end : runs.

(** ** The retry loop *)

Section RetryLoop.

Variable E : Env.
Variables task taskResult : Obj.

Lemma update_loop_retry retryCount :
  retryCount < MAX_RETRIES ->
  update_loop E task taskResult retryCount =
  (returned ← update_attempt E task taskResult retryCount;
   if (returned : bool) then mret tt
   else update_loop E task taskResult (S retryCount)).
Proof.
  intros Hlt. rewrite update_loop_equation_1.
  destruct (decide (retryCount < MAX_RETRIES)) as [Hl | Hn]; [| contradiction].
  reflexivity.
Qed.

Lemma update_loop_exhausted retryCount :
  ~ retryCount < MAX_RETRIES ->
  update_loop E task taskResult retryCount =
  (taskId ← text E (obj_get taskResult "taskId");
   logger_error E (terminal_line taskId retryCount) None).
Proof.
  intros Hge. rewrite update_loop_equation_1.
  destruct (decide (retryCount < MAX_RETRIES)) as [Hl | Hn]; [contradiction |].
  reflexivity.
Qed.

Lemma update_attempt_runs retryCount :
  runs (update_attempt E task taskResult retryCount)
    (catch_spec
       (seq_spec (call_spec (EvUpdateTask taskResult) (update_reply E))
          (fun _ => pure_spec (Normal true)))
       (fun error =>
          seq_spec (call_spec (EvOnError error (Some task)) (onError_reply E))
            (fun _ =>
               seq_spec
                 (pure_spec
                    match text_of E (obj_get taskResult "taskId") with
                    | Some s => Normal s
                    | None =>
                        Throw (convert_error E (obj_get taskResult "taskId"))
                    end)
                 (fun taskId =>
                    seq_spec
                      (call_spec
                         (EvLogError (retry_line taskId retryCount)
                            (Some error))
                         (logger_reply E))
                      (fun _ =>
                         seq_spec
                           (timer_spec (Z.of_nat (S retryCount) * 10))
                           (fun _ => pure_spec (Normal false))))))).
Proof.
  unfold update_attempt, errorHandler, logger_error.
  apply runs_try_catch.
  - apply runs_bind; [apply runs_await | intros _; apply runs_mret].
  - intros error. apply runs_bind; [apply runs_await | intros _].
    apply runs_bind; [apply runs_text | intros taskId].
    apply runs_bind; [apply runs_await | intros _].
    apply runs_bind; [apply runs_sleep | intros _; apply runs_mret].
Qed.

(** Every run of the loop is one of [UpdateRun]. *)
Lemma update_loop_runs retryCount :
  runs (update_loop E task taskResult retryCount)
    (UpdateRun E task taskResult retryCount).
Proof.
  remember (MAX_RETRIES - retryCount) as budget eqn:Hb.
  revert retryCount Hb.
  induction budget as [| budget IH]; intros retryCount Hb.
  - assert (Hge : ~ retryCount < MAX_RETRIES) by lia.
    rewrite (update_loop_exhausted _ Hge).
    eapply runs_weaken.
    { apply runs_bind; [apply runs_text | intros taskId].
      unfold logger_error. apply runs_await. }
    intros h evs c Hspec. spec_cases; simp_eqs; reply_cases; tidy.
    + by apply run_exhausted.
    + by apply run_exhausted_text_raises.
  - assert (Hlt : retryCount < MAX_RETRIES) by lia.
    rewrite (update_loop_retry _ Hlt).
    eapply runs_weaken.
    { apply runs_bind; [apply update_attempt_runs |].
      intros returned.
      instantiate (1 := fun returned =>
                          if (returned : bool) then pure_spec (Normal tt)
                          else UpdateRun E task taskResult (S retryCount)).
      destruct returned; [apply runs_mret | apply IH; lia]. }
    intros h evs c Hspec. spec_cases; simp_eqs; reply_cases; tidy.
    all: spec_cases; simp_eqs.
    all: try solve [ eauto with runs ].
    match goal with
    | Ht : text_of _ _ = Some ?taskId,
      Hnext : UpdateRun _ _ _ (S _) _ ?loop _ |- _ =>
        by apply (run_retry E task taskResult retryCount h _ taskId loop)
    end.
Qed.

Lemma updateTaskWithRetry_runs :
  runs (updateTaskWithRetry E task taskResult) (EnteredRun E task taskResult).
Proof.
  unfold updateTaskWithRetry. eapply runs_weaken.
  { apply runs_bind; [apply runs_emit | intros ?; apply update_loop_runs]. }
  intros h evs c Hspec. spec_cases; simp_eqs; tidy.
  eexists. split; [reflexivity | assumption].
Qed.

End RetryLoop.

(** ** The executor *)

#[local] Hint Constructors FinishRun ReportRun ExecRun : runs.

Section Executor.

Variable E : Env.
Variable task : Obj.

Lemma finish_runs result :
  runs (updateTaskWithRetry E task (completed_result task result) ;;
        taskId ← text E (obj_get task "taskId");
        logger_debug E ("Finished polling for task " +:+ taskId))
    (FinishRun E task result).
Proof.
  eapply runs_weaken.
  { apply runs_bind; [apply updateTaskWithRetry_runs | intros ?].
    apply runs_bind; [apply runs_text | intros taskId].
    unfold logger_debug. apply runs_await. }
  intros h evs c Hspec. spec_cases; simp_eqs; reply_cases; tidy.
  - by apply finish_logged.
  - by apply finish_text_raises.
  - by apply finish_update_stops.
  - by apply finish_update_stops.
Qed.

Lemma report_runs error :
  runs (updateTaskWithRetry E task (failed_result task error) ;;
        errorHandler E error (Some task) ;;
        taskId ← text E (obj_get task "taskId");
        logger_error E ("Error executing " +:+ taskId) (Some error))
    (ReportRun E task error).
Proof.
  eapply runs_weaken.
  { apply runs_bind; [apply updateTaskWithRetry_runs | intros ?].
    unfold errorHandler.
    apply runs_bind; [apply runs_await | intros ?].
    apply runs_bind; [apply runs_text | intros taskId].
    unfold logger_error. apply runs_await. }
  intros h evs c Hspec. spec_cases; simp_eqs; reply_cases; tidy.
  all: try solve [ eauto with runs ].
  all: try solve [ apply report_update_stops; [assumption | discriminate] ].
Qed.

(** Every run of [executeTask] is one of [ExecRun]. *)
Lemma executeTask_runs : runs (executeTask E task) (ExecRun E task).
Proof.
  unfold executeTask. eapply runs_weaken.
  { apply runs_try_catch.
    - apply runs_bind; [apply runs_await | intros result; apply finish_runs].
    - intros error. apply report_runs. }
  intros h evs c Hspec. spec_cases; simp_eqs; reply_cases; tidy.
  all: try solve [ eauto with runs ].
  all: try solve [ eapply exec_finished; eauto; discriminate ].
Qed.

End Executor.

(** ** The error funnel *)

Section ErrorFunnel.

Variable E : Env.
Variable R : TaskRunner.

(** On a value that is neither null nor undefined, the funnel is the
    conversion of the two kept fields and one call of the logger. *)
Lemma handleUnknownError_defined error st :
  is_nullish error = false ->
  handleUnknownError E R error st =
  (message ← text E (kept_field error "message");
   stack ← text E (kept_field error "stack");
   logger_error E (unknown_error_line R message stack) None) st.
Proof.
  intros Hdef. unfold handleUnknownError, kept_field, opt_chain, read_prop.
  destruct (get_prop error "stack") as [s |] eqn:Hst;
    [| destruct error; discriminate].
  destruct (get_prop error "message") as [m |] eqn:Hmsg;
    [| destruct error; discriminate].
  rewrite run_bind. simpl. rewrite run_bind.
  destruct (truthy s); simpl; rewrite run_bind; simpl; rewrite run_bind;
    destruct (truthy m); reflexivity.
Qed.

Lemma handleUnknownError_nullish error st :
  is_nullish error = true ->
  handleUnknownError E R error st = (Throw (type_error E error "stack"), st).
Proof.
  intros Hnull. unfold handleUnknownError, read_prop.
  destruct error; try discriminate; reflexivity.
Qed.

(** With both texts at hand, it is that one call. *)
Lemma handleUnknownError_logs error st message stack :
  is_nullish error = false ->
  text_of E (kept_field error "message") = Some message ->
  text_of E (kept_field error "stack") = Some stack ->
  handleUnknownError E R error st
  = logger_error E (unknown_error_line R message stack) None st.
Proof.
  intros Hdef Hm Hs. rewrite handleUnknownError_defined by exact Hdef.
  unfold text. rewrite Hm, Hs. reflexivity.
Qed.

Lemma handleUnknownError_runs error :
  runs (handleUnknownError E R error)
    (fun h evs c =>
       if is_nullish error then pure_spec (Throw (type_error E error "stack")) h evs c
       else
         seq_spec
           (pure_spec
              match text_of E (kept_field error "message") with
              | Some s => Normal s
              | None => Throw (convert_error E (kept_field error "message"))
              end)
           (fun message =>
              seq_spec
                (pure_spec
                   match text_of E (kept_field error "stack") with
                   | Some s => Normal s
                   | None => Throw (convert_error E (kept_field error "stack"))
                   end)
                (fun stack =>
                   call_spec
                     (EvLogError (unknown_error_line R message stack) None)
                     (logger_reply E))) h evs c).
Proof.
  destruct (is_nullish error) eqn:Hnull.
  - intros st. rewrite handleUnknownError_nullish by exact Hnull.
    exists (Throw (type_error E error "stack")), st, [].
    rewrite app_nil_r. by repeat split.
  - intros st. rewrite handleUnknownError_defined by exact Hnull.
    revert st.
    apply runs_bind; [apply runs_text | intros message].
    apply runs_bind; [apply runs_text | intros stack].
    unfold logger_error. apply runs_await.
Qed.

End ErrorFunnel.

(** ** The poll loop *)

#[local] Hint Constructors CatchRun BodyRun TurnRun : runs.

Section PollLoop.

Variable E : Env.
Variable R : TaskRunner.

Lemma poll_catch_runs u : runs (poll_catch E R u) (CatchRun E R u).
Proof.
  unfold poll_catch. eapply runs_weaken.
  { apply runs_bind; [apply handleUnknownError_runs | intros ?].
    unfold errorHandler. apply runs_await. }
  intros h evs c Hspec. spec_cases; simp_eqs.
  all: destruct (is_nullish u) eqn:Hnull.
  all: spec_cases; simp_eqs; reply_cases; tidy.
  all: try solve [ eauto with runs ].
Qed.

Lemma poll_try_runs : runs (poll_try E R) (BodyRun E R).
Proof.
  unfold poll_try. eapply runs_weaken.
  { apply (runs_bind _ _ (call_spec (poll_request R) (poll_reply E))
             (fun task : option Obj =>
                match task with
                | Some t =>
                    if truthy (obj_get t "taskId") then ExecRun E t
                    else call_spec
                           (EvLogDebug ("No tasks for "
                                          +:+ taskDefName (worker R)))
                           (logger_reply E)
                | None =>
                    call_spec
                      (EvLogDebug ("No tasks for " +:+ taskDefName (worker R)))
                      (logger_reply E)
                end));
      [apply runs_await |].
    intros [t |]; [destruct (truthy (obj_get t "taskId")) |].
    - apply executeTask_runs.
    - unfold logger_debug. apply runs_await.
    - unfold logger_debug. apply runs_await. }
  intros h evs c Hspec. spec_cases; simp_eqs.
  - match goal with
    | H : Normal ?task = completion_of (settled ?r) |- _ =>
        destruct (settled r) as [task' | |] eqn:Hs; simpl in H; simp_eqs
    end.
    destruct task' as [t |]; [destruct (truthy (obj_get t "taskId")) eqn:Hid |].
    + tidy. by eapply body_task.
    + spec_cases; simp_eqs; tidy. by apply (body_idle E R h (Some t)).
    + spec_cases; simp_eqs; tidy. by apply (body_idle E R h None).
  - apply body_fetch_stops.
    match goal with
    | H : Throw _ = completion_of (settled ?r) |- _ =>
        destruct (settled r); simpl in H; simp_eqs; reflexivity
    end.
  - apply body_fetch_stops.
    match goal with
    | H : Hang = completion_of (settled ?r) |- _ =>
        destruct (settled r); simpl in H; simp_eqs; reflexivity
    end.
Qed.

(** Every turn of the loop is one of [TurnRun]. *)
Lemma poll_iteration_runs : runs (poll_iteration E R) (TurnRun E R).
Proof.
  unfold poll_iteration. eapply runs_weaken.
  { apply runs_bind; [| intros ?; apply runs_sleep].
    apply runs_try_catch; [apply poll_try_runs | apply poll_catch_runs]. }
  intros h evs c Hspec. spec_cases; simp_eqs; tidy.
  all: try solve [ eauto with runs ].
  all: try solve [ eapply turn_rejected; eauto; discriminate ].
Qed.

End PollLoop.

(** * Runs in which every call comes back *)

Lemma calls_return_app E h evs1 evs2 :
  calls_return E h (evs1 ++ evs2)
  = calls_return E h evs1 && calls_return E (h ++ evs1) evs2.
Proof.
  revert h. induction evs1 as [| ev evs1 IH]; intros h; simpl.
  - by rewrite app_nil_r.
  - rewrite IH, <- app_assoc, andb_assoc. reflexivity.
Qed.

Lemma calls_return_cons E h ev evs :
  calls_return E h (ev :: evs) = true ->
  call_returns E h ev = true /\ calls_return E (h ++ [ev]) evs = true.
Proof. simpl. intros H. by apply andb_prop in H. Qed.

Lemma calls_return_split E h evs1 evs2 :
  calls_return E h (evs1 ++ evs2) = true ->
  calls_return E h evs1 = true /\ calls_return E (h ++ evs1) evs2 = true.
Proof. rewrite calls_return_app. intros H. by apply andb_prop in H. Qed.

Lemma interrupted_returned {A B} (s : Settled A) (c : Completion B) :
  interrupted s = Some c -> returned s = false.
Proof. by destruct s. Qed.

Lemma interrupted_came_back {A B} (s : Settled A) (c : Completion B) :
  interrupted s = Some c -> came_back s = true -> exists e, s = Rejected e.
Proof. destruct s; try discriminate; eauto. Qed.

Lemma interrupted_throw {A B} (s : Settled A) (e : JsVal) :
  interrupted s = Some (@Throw B e) -> s = Rejected e.
Proof. destruct s; try discriminate. by intros [= ->]. Qed.

Lemma completion_throw {A} (s : Settled A) (e : JsVal) :
  completion_of s = Throw e -> s = Rejected e.
Proof. destruct s; try discriminate. by intros [= ->]. Qed.

Lemma returned_completion (s : Settled unit) :
  returned s = true -> completion_of s = Normal tt.
Proof. by destruct s as [[] | |]. Qed.

(** Taking [calls_return] apart, event by event. *)
Ltac returns_cases :=
  repeat match goal with
         | H : calls_return _ _ (_ :: _) = true |- _ =>
             apply calls_return_cons in H as [? ?]
         | H : calls_return _ _ (_ ++ _) = true |- _ =>
             apply calls_return_split in H as [? ?]
         | H : calls_return _ _ [] = true |- _ => clear H
         end;
  cbn [call_returns] in *; tidy.

Ltac returns_absurd :=
  match goal with
  | H : interrupted ?s = Some _, H' : returned ?s = true |- _ =>
      rewrite (interrupted_returned _ _ H) in H'; discriminate H'
  | H : ?s = Pending, H' : came_back ?s = true |- _ =>
      rewrite H in H'; discriminate H'
  | H : ?x = None, H' : ?x = Some _ |- _ =>
      rewrite H in H'; discriminate H'
  end.

Section SmoothRuns.

Variable E : Env.
Variables task taskResult : Obj.

Lemma UpdateRun_smooth retryCount h evs c taskId :
  UpdateRun E task taskResult retryCount h evs c ->
  calls_return E h evs = true ->
  text_of E (obj_get taskResult "taskId") = Some taskId ->
  c = Normal tt /\ SmoothRun E task taskResult taskId retryCount h evs.
Proof.
  intros Hrun. revert taskId.
  induction Hrun as [rc h Hlt Hs | rc h Hlt Hs | rc h e c Hlt Hs Hh
                     | rc h e Hlt Hs Hh Hno | rc h e id c Hlt Hs Hh Hid Hl
                     | rc h e id evs c Hlt Hs Hh Hid Hl Hnext IH
                     | rc h id Hge Hid | rc h Hge Hno];
    intros taskId Hcr Ht.
  - split; [reflexivity | by apply smooth_delivered].
  - returns_cases. returns_absurd.
  - returns_cases. returns_absurd.
  - returns_absurd.
  - rewrite Hid in Ht. injection Ht as ->. returns_cases. returns_absurd.
  - rewrite Hid in Ht. injection Ht as ->.
    apply calls_return_split in Hcr as [_ Hcr].
    destruct (IH taskId Hcr Hid) as [-> Hsmooth].
    split; [reflexivity | by apply smooth_retry].
  - rewrite Hid in Ht. injection Ht as ->. returns_cases.
    split; [by apply returned_completion | by apply smooth_exhausted].
  - returns_absurd.
Qed.

(** Between one and [MAX_RETRIES - retryCount] deliveries are tried,
    all of the same record, however the run ends. *)
Lemma UpdateRun_updates retryCount h evs c :
  UpdateRun E task taskResult retryCount h evs c ->
  exists k, updates evs = replicate k taskResult
            /\ k <= MAX_RETRIES - retryCount
            /\ (retryCount < MAX_RETRIES -> 1 <= k).
Proof.
  induction 1 as [rc h Hlt Hs | rc h Hlt Hs | rc h e c Hlt Hs Hh
                  | rc h e Hlt Hs Hh Hno | rc h e id c Hlt Hs Hh Hid Hl
                  | rc h e id evs c Hlt Hs Hh Hid Hl Hnext IH
                  | rc h id Hge Hid | rc h Hge Hno].
  1-5: exists 1; repeat split; [lia | done].
  - destruct IH as (k & Hk & Hle & _).
    exists (S k). unfold updates in *. rewrite omap_app, Hk.
    repeat split; lia.
  - exists 0. repeat split; [lia | done].
  - exists 0. repeat split; [lia | done].
Qed.

(** The loop calls neither the worker nor the queue's [poll], and does
    not enter [updateTaskWithRetry]. *)
Lemma UpdateRun_other_calls retryCount h evs c :
  UpdateRun E task taskResult retryCount h evs c ->
  invocations evs = [] /\ executions evs = [] /\ fetches evs = [].
Proof.
  induction 1 as [rc h Hlt Hs | rc h Hlt Hs | rc h e c Hlt Hs Hh
                  | rc h e Hlt Hs Hh Hno | rc h e id c Hlt Hs Hh Hid Hl
                  | rc h e id evs c Hlt Hs Hh Hid Hl Hnext IH
                  | rc h id Hge Hid | rc h Hge Hno];
    try by repeat split.
  destruct IH as (Hi & He & Hf).
  unfold invocations, executions, fetches in *.
  rewrite !omap_app, filter_app, Hi, He, Hf. by repeat split.
Qed.


End SmoothRuns.

(** ** What a smooth run of the loop contains *)

Section SmoothRunFacts.

Variable E : Env.
Variables task taskResult : Obj.
Variable taskId : string.

(** The only line logged at error level without an error value is the
    terminal one. *)
Lemma SmoothRun_plain_error_lines retryCount h evs msg :
  SmoothRun E task taskResult taskId retryCount h evs ->
  retryCount <= MAX_RETRIES ->
  EvLogError msg None ∈ evs ->
  msg = terminal_line taskId MAX_RETRIES.
Proof.
  induction 1 as [| rc h e evs Hlt _ _ IH | rc h Hge]; intros Hle Hin.
  - apply list_elem_of_singleton in Hin. discriminate.
  - apply elem_of_app in Hin as [Hin | Hin]; [| apply IH; [lia | exact Hin]].
    unfold failed_attempt in Hin.
    repeat (apply elem_of_cons in Hin as [Hin | Hin]; [discriminate |]).
    by apply elem_of_nil in Hin.
  - apply list_elem_of_singleton in Hin. injection Hin as ->.
    f_equal. lia.
Qed.

(** The error handler is always called with the task. *)
Lemma SmoothRun_handler_calls retryCount h evs e t :
  SmoothRun E task taskResult taskId retryCount h evs ->
  EvOnError e t ∈ evs ->
  t = Some task.
Proof.
  induction 1 as [| rc h e' evs Hlt _ _ IH | rc h Hge]; intros Hin.
  - apply list_elem_of_singleton in Hin. discriminate.
  - apply elem_of_app in Hin as [Hin | Hin]; [| by apply IH].
    unfold failed_attempt in Hin.
    apply elem_of_cons in Hin as [Hin | Hin]; [discriminate |].
    apply elem_of_cons in Hin as [Hin | Hin]; [by injection Hin as _ -> |].
    repeat (apply elem_of_cons in Hin as [Hin | Hin]; [discriminate |]).
    by apply elem_of_nil in Hin.
  - apply list_elem_of_singleton in Hin. discriminate.
Qed.

(** A failed attempt is reported to the error handler with the task. *)
Lemma SmoothRun_failures_reported retryCount h evs :
  SmoothRun E task taskResult taskId retryCount h evs ->
  forall pre r post e,
    evs = pre ++ EvUpdateTask r :: post ->
    settled (update_reply E (h ++ pre ++ [EvUpdateTask r])) = Rejected e ->
    exists post', post = EvOnError e (Some task) :: post'.
Proof.
  induction 1 as [rc h _ Hs | rc h e evs _ Hs _ IH | rc h _];
    intros pre r post e' Hsplit Hrej.
  - destruct pre as [| ev pre]; simpl in Hsplit.
    + injection Hsplit as <- <-. simpl in Hrej. congruence.
    + injection Hsplit as _ Hnil. by destruct pre.
  - destruct pre as [| ev pre]; simpl in Hsplit.
    + simpl in Hrej. injection Hsplit as <- <-.
      rewrite Hs in Hrej. injection Hrej as <-. eauto.
    + unfold failed_attempt in Hsplit. simpl in Hsplit.
      injection Hsplit as <- Hsplit.
      destruct pre as [| ev1 pre]; [discriminate |].
      injection Hsplit as <- Hsplit.
      destruct pre as [| ev2 pre]; [discriminate |].
      injection Hsplit as <- Hsplit.
      destruct pre as [| ev3 pre]; [discriminate |].
      injection Hsplit as <- Hsplit.
      apply (IH pre r post e' Hsplit).
      rewrite <- Hrej. f_equal. unfold failed_attempt.
      rewrite <- !app_assoc. reflexivity.
  - destruct pre as [| ev pre]; simpl in Hsplit; [discriminate |].
    injection Hsplit as _ Hnil. by destruct pre.
Qed.

(** The trace behind a run fixes it. *)
Lemma SmoothRun_functional retryCount h evs1 evs2 :
  SmoothRun E task taskResult taskId retryCount h evs1 ->
  SmoothRun E task taskResult taskId retryCount h evs2 ->
  evs1 = evs2.
Proof.
  intros Hrun1. revert evs2.
  induction Hrun1 as [rc h Hlt Hs | rc h e evs Hlt Hs _ IH | rc h Hge];
    intros evs2 Hrun2;
    inversion Hrun2 as [rc' h' Hlt' Hs' | rc' h' e' evs' Hlt' Hs' Hnext
                       | rc' h' Hge']; subst;
    try reflexivity; try congruence; try contradiction.
  rewrite Hs in Hs'. injection Hs' as <-. f_equal. by apply IH.
Qed.

(** The deliveries of a smooth run, and its other calls. *)
Lemma SmoothRun_calls retryCount h evs :
  SmoothRun E task taskResult taskId retryCount h evs ->
  (exists k, updates evs = replicate k taskResult
             /\ k <= MAX_RETRIES - retryCount
             /\ (retryCount < MAX_RETRIES -> 1 <= k))
  /\ invocations evs = [] /\ executions evs = [] /\ fetches evs = [].
Proof.
  induction 1 as [rc h Hlt Hs | rc h e evs Hlt Hs _ IH | rc h Hge].
  - split; [| by repeat split]. exists 1. repeat split; [lia | done].
  - destruct IH as ((k & Hk & Hle & _) & Hi & He & Hf).
    unfold updates, invocations, executions, fetches in *.
    rewrite !omap_app, filter_app, Hk, Hi, He, Hf.
    split; [| by repeat split]. exists (S k). repeat split; lia.
  - split; [| by repeat split]. exists 0. repeat split; [lia | done].
Qed.

End SmoothRunFacts.

(** ** The records *)

Lemma completed_result_taskId task result :
  obj_get (completed_result task result) "taskId" = obj_get task "taskId".
Proof. unfold completed_result, obj_get at 1. by simplify_map_eq. Qed.

Lemma completed_result_workflowInstanceId task result :
  obj_get (completed_result task result) "workflowInstanceId"
  = obj_get task "workflowInstanceId".
Proof. unfold completed_result, obj_get at 1. by simplify_map_eq. Qed.

Lemma completed_result_other task result k :
  k <> "taskId" -> k <> "workflowInstanceId" ->
  completed_result task result !! k = result !! k.
Proof. intros H1 H2. unfold completed_result. by simplify_map_eq. Qed.

Lemma failed_result_taskId task error :
  obj_get (failed_result task error) "taskId" = obj_get task "taskId".
Proof. unfold failed_result, obj_get at 1. by simplify_map_eq. Qed.

Lemma failed_result_workflowInstanceId task error :
  obj_get (failed_result task error) "workflowInstanceId"
  = obj_get task "workflowInstanceId".
Proof. unfold failed_result, obj_get at 1. by simplify_map_eq. Qed.

Lemma failed_result_status task error :
  obj_get (failed_result task error) "status" = VStr "FAILED".
Proof. unfold failed_result, obj_get at 1. by simplify_map_eq. Qed.

Lemma failed_result_outputData task error :
  obj_get (failed_result task error) "outputData" = VObj ∅.
Proof. unfold failed_result, obj_get at 1. by simplify_map_eq. Qed.

Lemma failed_result_reason task error :
  obj_get (failed_result task error) "reasonForIncompletion"
  = nullish_coalesce (opt_chain error "message") (VStr DEFAULT_ERROR_MESSAGE).
Proof. unfold failed_result, obj_get at 1. by simplify_map_eq. Qed.

(** ** What a run of the executor contains *)


Lemma executions_app evs1 evs2 :
  executions (evs1 ++ evs2) = executions evs1 ++ executions evs2.
Proof. apply omap_app. Qed.

Lemma updates_app evs1 evs2 :
  updates (evs1 ++ evs2) = updates evs1 ++ updates evs2.
Proof. apply omap_app. Qed.


Lemma fetches_cons_other ev evs :
  is_fetch ev = false -> fetches (ev :: evs) = fetches evs.
Proof.
  intros Hf. unfold fetches. apply filter_cons_False. rewrite Hf. tauto.
Qed.


Section ExecutorFacts.

Variable E : Env.
Variable task : Obj.

Lemma one_update_quiet taskResult evs tail :
  one_update task taskResult evs ->
  Forall (fun ev => quiet ev = true) tail ->
  one_update task taskResult (evs ++ tail).
Proof.
  intros (Hi & (k & Hk & Hle) & He & Hf) Hq.
  assert (Hnone : invocations tail = [] /\ updates tail = []
                  /\ executions tail = [] /\ fetches tail = []).
  { induction Hq as [| ev tail Hev _ IH]; [by repeat split |].
    destruct IH as (? & ? & ? & ?).
    unfold invocations, updates, executions, fetches in *.
    destruct ev; try discriminate; simpl; by repeat split. }
  destruct Hnone as (Hi' & Hu' & He' & Hf').
  unfold one_update, invocations, updates, executions, fetches in *.
  rewrite !omap_app, filter_app, Hi, Hi', Hk, Hu', He, He', Hf, Hf', !app_nil_r.
  split; [reflexivity |]. split; [| by split]. by exists k.
Qed.

Lemma EnteredRun_calls taskResult h evs c :
  EnteredRun E task taskResult h evs c -> one_update task taskResult evs.
Proof.
  intros (loop & -> & Hrun).
  destruct (UpdateRun_updates _ _ _ _ _ _ _ Hrun) as (k & Hk & Hle & Hge).
  destruct (UpdateRun_other_calls _ _ _ _ _ _ _ Hrun) as (Hi & He & Hf).
  unfold one_update. simpl. rewrite fetches_cons_other by reflexivity.
  rewrite Hi, He. split; [reflexivity |]. split; [| by split].
  exists k. split; [exact Hk |]. unfold MAX_RETRIES in *. lia.
Qed.

Lemma FinishRun_calls result h evs c :
  FinishRun E task result h evs c ->
  one_update task (completed_result task result) evs.
Proof.
  destruct 1 as [h evs c Hrun _ | h evs Hrun _ | h evs taskId Hrun _].
  - by eapply EnteredRun_calls.
  - by eapply EnteredRun_calls.
  - apply one_update_quiet; [by eapply EnteredRun_calls |].
    by repeat constructor.
Qed.

Lemma ReportRun_calls error h evs c :
  ReportRun E task error h evs c ->
  one_update task (failed_result task error) evs.
Proof.
  destruct 1 as [h evs c Hrun _ | h evs c Hrun _ | h evs Hrun _ _
                 | h evs taskId Hrun _ _].
  - by eapply EnteredRun_calls.
  - apply one_update_quiet; [by eapply EnteredRun_calls |].
    by repeat constructor.
  - apply one_update_quiet; [by eapply EnteredRun_calls |].
    by repeat constructor.
  - apply one_update_quiet; [by eapply EnteredRun_calls |].
    by repeat constructor.
Qed.

(** The calls of a run of [executeTask], by what the worker did. *)
Lemma ExecRun_calls h evs c :
  ExecRun E task h evs c ->
  exists rest,
    evs = EvExecute task :: rest
    /\ executions rest = []
    /\ fetches rest = []
    /\ match settled (execute_reply E (h ++ [EvExecute task])) with
       | Pending => rest = [] /\ c = Hang
       | Rejected error => one_update task (failed_result task error) rest
       | Resolved result =>
           one_update task (completed_result task result) rest
           \/ exists first error second,
                rest = first ++ second
                /\ one_update task (completed_result task result) first
                /\ one_update task (failed_result task error) second
       end.
Proof.
  destruct 1 as [h Hs | h error evs c Hs Hrep | h result evs c Hs Hfin _
                 | h result evs error evs' c Hs Hfin Hrep].
  - exists []. rewrite Hs. by repeat split.
  - pose proof (ReportRun_calls _ _ _ _ Hrep) as Hcalls.
    exists evs. rewrite Hs. split; [reflexivity |].
    split; [apply Hcalls |]. split; [apply Hcalls | exact Hcalls].
  - pose proof (FinishRun_calls _ _ _ _ Hfin) as Hcalls.
    exists evs. rewrite Hs. split; [reflexivity |].
    split; [apply Hcalls |]. split; [apply Hcalls | by left].
  - pose proof (FinishRun_calls _ _ _ _ Hfin) as Hcalls.
    pose proof (ReportRun_calls _ _ _ _ Hrep) as Hcalls'.
    exists (evs ++ evs'). rewrite Hs. split; [reflexivity |].
    destruct Hcalls as (_ & _ & He & Hf).
    destruct Hcalls' as (_ & _ & He' & Hf').
    unfold executions, fetches in *.
    rewrite omap_app, filter_app, He, He', Hf, Hf'.
    split; [reflexivity |]. split; [reflexivity |].
    right. exists evs, error, evs'.
    split; [reflexivity |].
    split; [by eapply FinishRun_calls | by eapply ReportRun_calls].
Qed.

End ExecutorFacts.

(** ** Smooth runs of the executor *)

Section SmoothExecutor.

Variable E : Env.
Variable task : Obj.
Variable taskId : string.
Hypothesis Htext : text_of E (obj_get task "taskId") = Some taskId.

Lemma EnteredRun_smooth taskResult h evs c :
  obj_get taskResult "taskId" = obj_get task "taskId" ->
  EnteredRun E task taskResult h evs c ->
  calls_return E h evs = true ->
  c = Normal tt
  /\ exists loop,
       evs = EvEnterUpdateWithRetry task taskResult :: loop
       /\ SmoothRun E task taskResult taskId 0
            (h ++ [EvEnterUpdateWithRetry task taskResult]) loop.
Proof.
  intros Hid (loop & -> & Hrun) Hcr.
  apply calls_return_cons in Hcr as [_ Hcr].
  destruct (UpdateRun_smooth _ _ _ _ _ _ _ taskId Hrun Hcr) as [-> Hsmooth];
    [by rewrite Hid |].
  split; [reflexivity |]. by exists loop.
Qed.

Lemma FinishRun_smooth result h evs c :
  FinishRun E task result h evs c ->
  calls_return E h evs = true ->
  c = Normal tt
  /\ exists loop,
       evs = EvEnterUpdateWithRetry task (completed_result task result)
               :: loop
               ++ [EvLogDebug ("Finished polling for task " +:+ taskId)]
       /\ SmoothRun E task (completed_result task result) taskId 0
            (h ++ [EvEnterUpdateWithRetry task (completed_result task result)])
            loop.
Proof.
  destruct 1 as [h evs c Hrun Hc | h evs Hrun Hno | h evs id Hrun Hid];
    intros Hcr.
  - destruct (EnteredRun_smooth _ _ _ _ (completed_result_taskId _ _) Hrun Hcr)
      as [-> _].
    contradiction.
  - rewrite Htext in Hno. discriminate.
  - rewrite Htext in Hid. injection Hid as <-.
    apply calls_return_split in Hcr as [Hcr Hlog].
    destruct (EnteredRun_smooth _ _ _ _ (completed_result_taskId _ _) Hrun Hcr)
      as [_ (loop & -> & Hsmooth)].
    returns_cases.
    split; [by apply returned_completion |]. by exists loop.
Qed.

Lemma ReportRun_smooth error h evs c :
  ReportRun E task error h evs c ->
  calls_return E h evs = true ->
  c = Normal tt
  /\ exists loop,
       evs = EvEnterUpdateWithRetry task (failed_result task error)
               :: loop
               ++ [EvOnError error (Some task);
                   EvLogError ("Error executing " +:+ taskId) (Some error)]
       /\ SmoothRun E task (failed_result task error) taskId 0
            (h ++ [EvEnterUpdateWithRetry task (failed_result task error)])
            loop.
Proof.
  destruct 1 as [h evs c Hrun Hc | h evs c Hrun Hh | h evs Hrun Hh Hno
                 | h evs id Hrun Hh Hid];
    intros Hcr.
  - destruct (EnteredRun_smooth _ _ _ _ (failed_result_taskId _ _) Hrun Hcr)
      as [-> _].
    contradiction.
  - returns_cases. returns_absurd.
  - rewrite Htext in Hno. discriminate.
  - rewrite Htext in Hid. injection Hid as <-.
    apply calls_return_split in Hcr as [Hcr Hlog].
    destruct (EnteredRun_smooth _ _ _ _ (failed_result_taskId _ _) Hrun Hcr)
      as [_ (loop & -> & Hsmooth)].
    returns_cases.
    split; [by apply returned_completion |]. by exists loop.
Qed.

Lemma ExecRun_smooth h evs c :
  ExecRun E task h evs c ->
  calls_return E h evs = true ->
  c = Normal tt /\ SmoothExec E task taskId h evs.
Proof.
  destruct 1 as [h Hs | h error evs c Hs Hrep | h result evs c Hs Hfin _
                 | h result evs error evs' c Hs Hfin Hrep];
    intros Hcr.
  - returns_cases. returns_absurd.
  - apply calls_return_cons in Hcr as [_ Hcr].
    destruct (ReportRun_smooth _ _ _ _ Hrep Hcr) as [-> (loop & -> & Hsmooth)].
    split; [reflexivity |].
    exists (failed_result task error), loop. eexists.
    split; [reflexivity |].
    split; [by rewrite <- app_assoc in Hsmooth |].
    right. by exists error.
  - apply calls_return_cons in Hcr as [_ Hcr].
    destruct (FinishRun_smooth _ _ _ _ Hfin Hcr) as [-> (loop & -> & Hsmooth)].
    split; [reflexivity |].
    exists (completed_result task result), loop. eexists.
    split; [reflexivity |].
    split; [by rewrite <- app_assoc in Hsmooth |].
    left. by exists result.
  - apply calls_return_cons in Hcr as [_ Hcr].
    apply calls_return_split in Hcr as [Hcr _].
    destruct (FinishRun_smooth _ _ _ _ Hfin Hcr) as [Hc _]. discriminate.
Qed.

End SmoothExecutor.

(** What a smooth run of the executor contains: one entry of
    [updateTaskWithRetry], for the record that fits what the worker
    did, and the reports of its failures. *)
Lemma SmoothExec_calls E task taskId h evs :
  SmoothExec E task taskId h evs ->
  exists taskResult rest,
    evs = EvExecute task :: rest
    /\ one_update task taskResult rest
    /\ obj_get taskResult "taskId" = obj_get task "taskId"
    /\ obj_get taskResult "workflowInstanceId"
       = obj_get task "workflowInstanceId".
Proof.
  intros (taskResult & loop & tail & -> & Hsmooth & Hcase).
  destruct (SmoothRun_calls _ _ _ _ _ _ _ Hsmooth)
    as ((k & Hk & Hle & Hge) & Hi & He & Hf).
  exists taskResult. eexists. split; [reflexivity |].
  assert (Htail : Forall (fun ev => quiet ev = true) tail
                  /\ obj_get taskResult "taskId" = obj_get task "taskId"
                  /\ obj_get taskResult "workflowInstanceId"
                     = obj_get task "workflowInstanceId").
  { destruct Hcase as [(result & _ & -> & ->) | (error & _ & -> & ->)].
    - split; [by repeat constructor |].
      auto using completed_result_taskId, completed_result_workflowInstanceId.
    - split; [by repeat constructor |].
      auto using failed_result_taskId, failed_result_workflowInstanceId. }
  destruct Htail as (Hq & Hid & Hwf).
  split; [| by split].
  change (EvEnterUpdateWithRetry task taskResult :: loop ++ tail)
    with ((EvEnterUpdateWithRetry task taskResult :: loop) ++ tail).
  apply one_update_quiet; [| exact Hq].
  unfold one_update. simpl. rewrite fetches_cons_other by reflexivity.
  rewrite Hi, He. split; [reflexivity |]. split; [| by split].
  exists k. split; [exact Hk |]. unfold MAX_RETRIES in *. lia.
Qed.

(** ** What a turn contains *)

Lemma quiet_calls tail :
  Forall (fun ev => quiet ev = true) tail ->
  invocations tail = [] /\ updates tail = []
  /\ executions tail = [] /\ fetches tail = [].
Proof.
  induction 1 as [| ev tail Hev _ IH]; [by repeat split |].
  destruct IH as (Hi & Hu & He & Hf).
  destruct ev; try discriminate; simpl;
    rewrite fetches_cons_other by reflexivity; by repeat split.
Qed.

Lemma task_calls_quiet evs tail :
  task_calls evs ->
  Forall (fun ev => quiet ev = true) tail ->
  task_calls (evs ++ tail).
Proof.
  intros (Hf & Hone & Htwo & Hids) Hq.
  destruct (quiet_calls tail Hq) as (Hi' & _ & He' & Hf').
  unfold task_calls, fetches, executions, invocations in *.
  rewrite filter_app, !omap_app, Hf, Hf', Hi', He', !app_nil_r.
  split; [reflexivity |]. split; [exact Hone |]. split; [exact Htwo |].
  exact Hids.
Qed.

Lemma task_calls_nil : task_calls [].
Proof.
  split; [reflexivity |]. split; [simpl; lia |]. split; [simpl; lia |].
  intros t r Hin. by apply elem_of_nil in Hin.
Qed.

Section TurnFacts.

Variable E : Env.
Variable R : TaskRunner.

Lemma ExecRun_task_calls task h evs c :
  ExecRun E task h evs c -> task_calls evs.
Proof.
  intros Hrun.
  destruct (ExecRun_calls _ _ _ _ _ Hrun) as (rest & -> & He & Hf & Hcase).
  assert (Hinv : length (invocations rest) <= 2
                 /\ forall t r, (t, r) ∈ invocations rest ->
                      t = task
                      /\ obj_get r "taskId" = obj_get task "taskId"
                      /\ obj_get r "workflowInstanceId"
                         = obj_get task "workflowInstanceId").
  { destruct (settled _) as [result | error |].
    - destruct Hcase as [(Hi & _) | (first & error & second & -> & (Hi & _)
                                     & (Hi' & _))].
      + rewrite Hi. split; [simpl; lia |]. intros t r Hin.
        apply list_elem_of_singleton in Hin. injection Hin as -> ->.
        auto using completed_result_taskId, completed_result_workflowInstanceId.
      + unfold invocations in *. rewrite omap_app, Hi, Hi'.
        split; [simpl; lia |]. intros t r Hin.
        apply elem_of_cons in Hin as [Hin | Hin].
        * injection Hin as -> ->.
          auto using completed_result_taskId,
            completed_result_workflowInstanceId.
        * apply list_elem_of_singleton in Hin. injection Hin as -> ->.
          auto using failed_result_taskId, failed_result_workflowInstanceId.
    - destruct Hcase as (Hi & _). rewrite Hi. split; [simpl; lia |].
      intros t r Hin.
      apply list_elem_of_singleton in Hin. injection Hin as -> ->.
      auto using failed_result_taskId, failed_result_workflowInstanceId.
    - destruct Hcase as [-> _]. split; [simpl; lia |].
      intros t r Hin. by apply elem_of_nil in Hin. }
  destruct Hinv as [Hlen Hids].
  unfold task_calls. rewrite fetches_cons_other by reflexivity.
  simpl. rewrite He. simpl.
  split; [exact Hf |]. split; [lia |]. split; [lia |].
  intros t r Hin. destruct (Hids t r Hin) as (-> & Hid & Hwf).
  split; [by left |]. by split.
Qed.

Lemma CatchRun_quiet u h evs c :
  CatchRun E R u h evs c -> Forall (fun ev => quiet ev = true) evs.
Proof. destruct 1; by repeat constructor. Qed.

Lemma BodyRun_calls h evs c :
  BodyRun E R h evs c ->
  exists rest, evs = poll_request R :: rest /\ task_calls rest.
Proof.
  destruct 1 as [h c Hs | h task Hs Hno | h t evs c Hs Hid Hrun].
  - exists []. split; [reflexivity | apply task_calls_nil].
  - eexists. split; [reflexivity |].
    apply (task_calls_quiet []); [apply task_calls_nil | by repeat constructor].
  - exists evs. split; [reflexivity | by eapply ExecRun_task_calls].
Qed.

(** Every turn starts with a request and sends no other; a turn that
    returns ends with the sleep of the poll interval. *)
Lemma TurnRun_calls h evs c :
  TurnRun E R h evs c ->
  exists rest,
    evs = poll_request R :: rest
    /\ task_calls rest
    /\ (c = Normal tt ->
        exists body, rest = body ++ [EvTimer (pollInterval (options R))]).
Proof.
  destruct 1 as [h evs Hbody | h evs Hbody | h evs u evs' Hbody Hcatch
                 | h evs u evs' c Hbody Hcatch Hc];
    destruct (BodyRun_calls _ _ _ Hbody) as (rest & -> & Hcalls).
  - exists (rest ++ [EvTimer (pollInterval (options R))]).
    split; [reflexivity |].
    split; [apply task_calls_quiet; [exact Hcalls | by repeat constructor] |].
    intros _. by exists rest.
  - exists rest. split; [reflexivity |]. split; [exact Hcalls | discriminate].
  - exists (rest ++ evs' ++ [EvTimer (pollInterval (options R))]).
    split; [reflexivity |]. split.
    + apply task_calls_quiet; [exact Hcalls |].
      apply Forall_app. split; [by eapply CatchRun_quiet | by repeat constructor].
    + intros _. exists (rest ++ evs'). by rewrite <- app_assoc.
  - exists (rest ++ evs'). split; [reflexivity |]. split.
    + apply task_calls_quiet; [exact Hcalls | by eapply CatchRun_quiet].
    + intros ->. contradiction.
Qed.

(** A turn in which every call came back, by what the fetch did. *)
Lemma BodyRun_smooth h evs c :
  BodyRun E R h evs c ->
  calls_return E h evs = true ->
  (exists u,
     settled (poll_reply E (h ++ [poll_request R])) = Rejected u
     /\ evs = [poll_request R] /\ c = Throw u)
  \/ (exists task,
        settled (poll_reply E (h ++ [poll_request R])) = Resolved task
        /\ no_task task
        /\ evs = [poll_request R;
                  EvLogDebug ("No tasks for " +:+ taskDefName (worker R))]
        /\ c = Normal tt)
  \/ (exists t body,
        settled (poll_reply E (h ++ [poll_request R])) = Resolved (Some t)
        /\ truthy (obj_get t "taskId") = true
        /\ evs = poll_request R :: body
        /\ ExecRun E t (h ++ [poll_request R]) body c
        /\ calls_return E (h ++ [poll_request R]) body = true).
Proof.
  destruct 1 as [h c Hs | h task Hs Hno | h t evs c Hs Hid Hrun]; intros Hcr.
  - left. apply calls_return_cons in Hcr as [Hcall _].
    unfold call_returns, poll_request in Hcall. fold (poll_request R) in Hcall.
    destruct (interrupted_came_back _ _ Hs Hcall) as (u & Hu).
    exists u. rewrite Hu in Hs. injection Hs as <-. by repeat split.
  - right. left. exists task. returns_cases.
    repeat split; try assumption. by apply returned_completion.
  - right. right. exists t, evs.
    apply calls_return_cons in Hcr as [_ Hcr]. by repeat split.
Qed.

Lemma CatchRun_smooth u h evs c message stack :
  CatchRun E R u h evs c ->
  calls_return E h evs = true ->
  is_nullish u = false ->
  text_of E (kept_field u "message") = Some message ->
  text_of E (kept_field u "stack") = Some stack ->
  c = Normal tt
  /\ evs = [EvLogError (unknown_error_line R message stack) None;
            EvOnError u None].
Proof.
  destruct 1 as [h Hn | h Hn Hm | h m Hn Hm Hs | h m s c Hn Hm Hs Hl
                 | h m s Hn Hm Hs Hl];
    intros Hcr Hdef Hmsg Hst; try congruence.
  - returns_cases. returns_absurd.
  - rewrite Hm in Hmsg. injection Hmsg as <-.
    rewrite Hs in Hst. injection Hst as <-.
    returns_cases. split; [by apply returned_completion | reflexivity].
Qed.

End TurnFacts.

(** ** The flag *)

Lemma host_stop_stays_stopped b st :
  isPolling st = false -> isPolling (host_stop b st) = false.
Proof. intros Hp. by destruct b. Qed.

Lemma stays_stopped_mret {A} (a : A) : stays_stopped (mret a).
Proof. intros st Hp. exact Hp. Qed.

Lemma stays_stopped_throw {A} e : stays_stopped (@throw A e).
Proof. intros st Hp. exact Hp. Qed.

Lemma stays_stopped_emit ev : stays_stopped (emit ev).
Proof. intros st Hp. exact Hp. Qed.

Lemma stays_stopped_await {A} call (reply : list Event -> Reply A) :
  stays_stopped (await call reply).
Proof. intros st Hp. unfold await. simpl. by apply host_stop_stays_stopped. Qed.

Lemma stays_stopped_sleep E ms : stays_stopped (sleep E ms).
Proof. intros st Hp. unfold sleep. simpl. by apply host_stop_stays_stopped. Qed.

Lemma stays_stopped_bind {A B} (m : M A) (k : A -> M B) :
  stays_stopped m -> (forall a, stays_stopped (k a)) -> stays_stopped (m ≫= k).
Proof.
  intros Hm Hk st Hp. rewrite run_bind. specialize (Hm st Hp).
  destruct (m st) as [[a | e |] st1]; simpl in Hm; [by apply Hk | exact Hm ..].
Qed.

Lemma stays_stopped_try_catch {A} (m : M A) (h : JsVal -> M A) :
  stays_stopped m -> (forall e, stays_stopped (h e)) ->
  stays_stopped (try_catch m h).
Proof.
  intros Hm Hh st Hp. unfold try_catch. specialize (Hm st Hp).
  destruct (m st) as [[a | e |] st1]; simpl in Hm;
    [exact Hm | by apply Hh | exact Hm].
Qed.

Lemma stays_stopped_read_prop E v k : stays_stopped (read_prop E v k).
Proof.
  unfold read_prop. destruct (get_prop v k);
    [apply stays_stopped_mret | apply stays_stopped_throw].
Qed.

Lemma stays_stopped_text E v : stays_stopped (text E v).
Proof.
  unfold text. destruct (text_of E v);
    [apply stays_stopped_mret | apply stays_stopped_throw].
Qed.

Create HintDb stopped.
#[local] Hint Resolve stays_stopped_mret stays_stopped_throw stays_stopped_emit
  stays_stopped_await stays_stopped_sleep stays_stopped_read_prop
  stays_stopped_text : stopped.

Ltac stays_stopped_steps :=
  repeat first
    [ solve [auto with stopped]
    | apply stays_stopped_bind; [| intros ?]
    | apply stays_stopped_try_catch; [| intros ?]
    | match goal with |- stays_stopped (if ?b then _ else _) => destruct b end ].

Lemma stays_stopped_handleUnknownError E R e :
  stays_stopped (handleUnknownError E R e).
Proof.
  unfold handleUnknownError, logger_error. stays_stopped_steps.
Qed.

Lemma stays_stopped_update_attempt E task taskResult retryCount :
  stays_stopped (update_attempt E task taskResult retryCount).
Proof.
  unfold update_attempt, errorHandler, logger_error. stays_stopped_steps.
Qed.

Lemma stays_stopped_update_loop E task taskResult retryCount :
  stays_stopped (update_loop E task taskResult retryCount).
Proof.
  funelim (update_loop E task taskResult retryCount).
  - apply stays_stopped_bind; [apply stays_stopped_update_attempt |].
    intros [|]; [apply stays_stopped_mret |].
    intros st Hp. by apply (H false st).
  - unfold logger_error. stays_stopped_steps.
Qed.

Lemma stays_stopped_updateTaskWithRetry E task taskResult :
  stays_stopped (updateTaskWithRetry E task taskResult).
Proof.
  unfold updateTaskWithRetry.
  apply stays_stopped_bind; [apply stays_stopped_emit |].
  intros _. apply stays_stopped_update_loop.
Qed.

#[local] Hint Resolve stays_stopped_handleUnknownError
  stays_stopped_updateTaskWithRetry : stopped.

Lemma stays_stopped_executeTask E task : stays_stopped (executeTask E task).
Proof.
  unfold executeTask, errorHandler, logger_error, logger_debug.
  stays_stopped_steps.
Qed.

#[local] Hint Resolve stays_stopped_executeTask : stopped.

Lemma stays_stopped_poll_try E R : stays_stopped (poll_try E R).
Proof.
  unfold poll_try, logger_debug.
  apply stays_stopped_bind; [auto with stopped |].
  intros [t |]; [destruct (truthy _) |]; auto with stopped.
Qed.

Lemma stays_stopped_poll_catch E R u : stays_stopped (poll_catch E R u).
Proof. unfold poll_catch, errorHandler. stays_stopped_steps. Qed.

Lemma stays_stopped_poll_iteration E R : stays_stopped (poll_iteration E R).
Proof.
  unfold poll_iteration.
  apply stays_stopped_bind; [| intros _; auto with stopped].
  apply stays_stopped_try_catch;
    [apply stays_stopped_poll_try | apply stays_stopped_poll_catch].
Qed.

Lemma poll_stopped E R fuel st :
  isPolling st = false -> poll E R fuel st = (Finished (Normal tt), st).
Proof. intros Hp. destruct fuel; simpl; by rewrite Hp. Qed.

(** The loop moves on to its next turn after a turn that returned. *)
Lemma poll_next_turn E R fuel st st' :
  isPolling st = true ->
  poll_iteration E R st = (Normal tt, st') ->
  poll E R (S fuel) st = poll E R fuel st'.
Proof. intros Hp Hrun. simpl. rewrite Hp, Hrun. reflexivity. Qed.

(** It ends with a turn that did not. *)
Lemma poll_last_turn E R fuel st c st' :
  isPolling st = true ->
  poll_iteration E R st = (c, st') ->
  c <> Normal tt ->
  poll E R (S fuel) st = (Finished c, st').
Proof.
  intros Hp Hrun Hc. simpl. rewrite Hp, Hrun.
  destruct c as [[] | e |]; [contradiction | reflexivity ..].
Qed.





(** *** Methods that do not read the flag *)

Lemma flag_blind_mret {A} (a : A) : flag_blind (mret a).
Proof. intros h f1 f2. by split. Qed.

Lemma flag_blind_throw {A} e : flag_blind (@throw A e).
Proof. intros h f1 f2. by split. Qed.

Lemma flag_blind_emit ev : flag_blind (emit ev).
Proof. intros h f1 f2. by split. Qed.

Lemma flag_blind_await {A} call (reply : list Event -> Reply A) :
  flag_blind (await call reply).
Proof.
  intros h f1 f2. unfold await. simpl. split; [reflexivity |].
  by rewrite !trace_host_stop.
Qed.

Lemma flag_blind_sleep E ms : flag_blind (sleep E ms).
Proof.
  intros h f1 f2. unfold sleep. simpl. split; [reflexivity |].
  by rewrite !trace_host_stop.
Qed.

Lemma flag_blind_bind {A B} (m : M A) (k : A -> M B) :
  flag_blind m -> (forall a, flag_blind (k a)) -> flag_blind (m ≫= k).
Proof.
  intros Hm Hk h f1 f2. rewrite !run_bind.
  destruct (Hm h f1 f2) as [Hc Htr].
  destruct (m (mkState f1 h)) as [c1 [g1 h1]].
  destruct (m (mkState f2 h)) as [c2 [g2 h2]].
  simpl in Hc, Htr. subst c2 h2.
  destruct c1 as [a | e |]; [apply Hk | by split ..].
Qed.

Lemma flag_blind_try_catch {A} (m : M A) (handler : JsVal -> M A) :
  flag_blind m -> (forall e, flag_blind (handler e)) ->
  flag_blind (try_catch m handler).
Proof.
  intros Hm Hh h f1 f2. unfold try_catch.
  destruct (Hm h f1 f2) as [Hc Htr].
  destruct (m (mkState f1 h)) as [c1 [g1 h1]].
  destruct (m (mkState f2 h)) as [c2 [g2 h2]].
  simpl in Hc, Htr. subst c2 h2.
  destruct c1 as [a | e |]; [by split | apply Hh | by split].
Qed.

Lemma flag_blind_text E v : flag_blind (text E v).
Proof.
  unfold text. destruct (text_of E v);
    [apply flag_blind_mret | apply flag_blind_throw].
Qed.

Create HintDb blind.
#[local] Hint Resolve flag_blind_mret flag_blind_throw flag_blind_emit
  flag_blind_await flag_blind_sleep flag_blind_text : blind.

Ltac flag_blind_steps :=
  repeat first
    [ solve [auto with blind]
    | apply flag_blind_bind; [| intros ?]
    | apply flag_blind_try_catch; [| intros ?] ].

Lemma flag_blind_update_loop E task taskResult retryCount :
  flag_blind (update_loop E task taskResult retryCount).
Proof.
  funelim (update_loop E task taskResult retryCount).
  - apply flag_blind_bind.
    + unfold update_attempt, errorHandler, logger_error. flag_blind_steps.
    + intros [|]; [apply flag_blind_mret |].
      intros h f1 f2. by apply (H false (mkState f1 h)).
  - unfold logger_error. flag_blind_steps.
Qed.

Lemma flag_blind_updateTaskWithRetry E task taskResult :
  flag_blind (updateTaskWithRetry E task taskResult).
Proof.
  unfold updateTaskWithRetry.
  apply flag_blind_bind; [apply flag_blind_emit |].
  intros _. apply flag_blind_update_loop.
Qed.

#[local] Hint Resolve flag_blind_updateTaskWithRetry : blind.

Lemma flag_blind_executeTask E task : flag_blind (executeTask E task).
Proof.
  unfold executeTask, errorHandler, logger_error, logger_debug.
  flag_blind_steps.
Qed.

(** * Update-with-Retry *)

Lemma retry_line_text taskId :
  retry_line taskId 0 = "Error updating task " +:+ taskId +:+ " on retry 0"
  /\ retry_line taskId 1 = "Error updating task " +:+ taskId +:+ " on retry 1"
  /\ retry_line taskId 2 = "Error updating task " +:+ taskId +:+ " on retry 2".
Proof. by repeat split. Qed.

Lemma terminal_line_text taskId :
  terminal_line taskId 3
  = "Unable to update task " +:+ taskId +:+ " after 3 retries".
Proof. reflexivity. Qed.



(** * Executor *)

(** The calls of a run of [executeTask] and how it ends when every call
    comes back. *)
Lemma executeTask_calls E task st :
  exists c st' rest,
    executeTask E task st = (c, st')
    /\ trace st' = trace st ++ EvExecute task :: rest
    /\ executions rest = []
    /\ fetches rest = []
    /\ match settled (execute_reply E (trace st ++ [EvExecute task])) with
       | Pending => rest = [] /\ c = Hang
       | Rejected error => one_update task (failed_result task error) rest
       | Resolved result =>
           one_update task (completed_result task result) rest
           \/ exists first error second,
                rest = first ++ second
                /\ one_update task (completed_result task result) first
                /\ one_update task (failed_result task error) second
       end
    /\ (calls_return E (trace st) (EvExecute task :: rest) = true ->
        forall taskId,
          text_of E (obj_get task "taskId") = Some taskId ->
          c = Normal tt
          /\ SmoothExec E task taskId (trace st) (EvExecute task :: rest)).
Proof.
  destruct (executeTask_runs E task st) as (c & st' & evs & Hrun & Htr & Hshape).
  destruct (ExecRun_calls _ _ _ _ _ Hshape) as (rest & -> & He & Hf & Hcase).
  exists c, st', rest. split; [exact Hrun |]. split; [exact Htr |].
  split; [exact He |]. split; [exact Hf |]. split; [exact Hcase |].
  intros Hcr taskId Htext. by apply ExecRun_smooth.
Qed.


(** The record of a run of [executeTask] and the deliveries tried, when
    the worker raised. *)
Lemma executeTask_failed_deliveries E task st error :
  settled (execute_reply E (trace st ++ [EvExecute task])) = Rejected error ->
  exists c st' evs k,
    executeTask E task st = (c, st')
    /\ trace st' = trace st ++ evs
    /\ invocations evs = [(task, failed_result task error)]
    /\ updates evs = replicate k (failed_result task error)
    /\ 1 <= k <= MAX_RETRIES
    /\ (calls_return E (trace st) evs = true ->
        forall taskId,
          text_of E (obj_get task "taskId") = Some taskId -> c = Normal tt).
Proof.
  intros Hs.
  destruct (executeTask_calls E task st)
    as (c & st' & rest & Hrun & Htr & He & Hf & Hcase & Hsmooth).
  rewrite Hs in Hcase. destruct Hcase as (Hi & (k & Hk & Hle) & _).
  exists c, st', (EvExecute task :: rest), k.
  split; [exact Hrun |]. split; [exact Htr |].
  split; [exact Hi |]. split; [exact Hk |]. split; [exact Hle |].
  intros Hcr taskId Htext. by destruct (Hsmooth Hcr taskId Htext).
Qed.

(** The same when the worker returned: the completed record comes
    first; a second record is the failed one of the [catch] block. *)
Lemma executeTask_completed_deliveries E task st result :
  settled (execute_reply E (trace st ++ [EvExecute task])) = Resolved result ->
  exists c st' evs k more later,
    executeTask E task st = (c, st')
    /\ trace st' = trace st ++ evs
    /\ invocations evs = (task, completed_result task result) :: more
    /\ updates evs = replicate k (completed_result task result) ++ later
    /\ 1 <= k <= MAX_RETRIES
    /\ ((more = [] /\ later = [])
        \/ exists error k',
             more = [(task, failed_result task error)]
             /\ later = replicate k' (failed_result task error)
             /\ 1 <= k' <= MAX_RETRIES)
    /\ (calls_return E (trace st) evs = true ->
        forall taskId,
          text_of E (obj_get task "taskId") = Some taskId ->
          c = Normal tt /\ more = [] /\ later = []).
Proof.
  intros Hs.
  destruct (executeTask_calls E task st)
    as (c & st' & rest & Hrun & Htr & He & Hf & Hcase & Hsmooth).
  rewrite Hs in Hcase.
  destruct Hcase as [(Hi & (k & Hk & Hle) & _)
                    | (first & error & second & -> & (Hi & (k & Hk & Hle) & _)
                       & (Hi' & (k' & Hk' & Hle') & _))].
  - exists c, st', (EvExecute task :: rest), k, [], [].
    split; [exact Hrun |]. split; [exact Htr |].
    split; [exact Hi |]. split; [by rewrite app_nil_r |].
    split; [exact Hle |]. split; [by left |].
    intros Hcr taskId Htext. by destruct (Hsmooth Hcr taskId Htext).
  - exists c, st', (EvExecute task :: first ++ second), k,
      [(task, failed_result task error)],
      (replicate k' (failed_result task error)).
    split; [exact Hrun |]. split; [exact Htr |].
    assert (Hinv : invocations (EvExecute task :: first ++ second)
                   = [(task, completed_result task result);
                      (task, failed_result task error)]).
    { unfold invocations in *. simpl. by rewrite omap_app, Hi, Hi'. }
    split; [exact Hinv |].
    split; [unfold updates in *; simpl; by rewrite omap_app, Hk, Hk' |].
    split; [exact Hle |]. split; [right; by exists error, k' |].
    intros Hcr taskId Htext. destruct (Hsmooth Hcr taskId Htext) as [_ Hsm].
    destruct (SmoothExec_calls _ _ _ _ _ Hsm) as (r & rest' & Heq & Hone & _).
    injection Heq as <-. destruct Hone as (Hone & _).
    change (invocations (first ++ second))
      with (invocations (EvExecute task :: first ++ second)) in Hone.
    rewrite Hinv in Hone. discriminate.
Qed.

(** C4: when the worker raises, the record handed to the update has the
    task's identifiers, status "FAILED", an empty output payload, and as
    reasonForIncompletion the error's message, or the default message
    when the error has none. *)
Theorem executeTask_worker_failure (E : Env) (task : Obj) (st : State)
    (error : JsVal) :
  settled (execute_reply E (trace st ++ [EvExecute task])) = Rejected error ->
  let taskResult := failed_result task error in
  (exists c st' evs k,
     executeTask E task st = (c, st')
     /\ trace st' = trace st ++ evs
     /\ invocations evs = [(task, taskResult)]
     /\ updates evs = replicate k taskResult
     /\ 1 <= k <= MAX_RETRIES
     /\ (calls_return E (trace st) evs = true ->
         forall taskId,
           text_of E (obj_get task "taskId") = Some taskId -> c = Normal tt))
  /\ obj_get taskResult "taskId" = obj_get task "taskId"
  /\ obj_get taskResult "workflowInstanceId"
     = obj_get task "workflowInstanceId"
  /\ obj_get taskResult "status" = VStr "FAILED"
  /\ obj_get taskResult "outputData" = VObj ∅
  /\ obj_get taskResult "reasonForIncompletion"
     = match opt_chain error "message" with
       | VUndefined | VNull => VStr DEFAULT_ERROR_MESSAGE
       | message => message
       end.
Proof.
  intros Hs taskResult. split.
  - by apply executeTask_failed_deliveries.
  - subst taskResult.
    rewrite failed_result_taskId, failed_result_workflowInstanceId,
      failed_result_status, failed_result_outputData, failed_result_reason.
    repeat split. unfold nullish_coalesce.
    by destruct (opt_chain error "message").
Qed.

(** C5: when the worker returns, the record handed to the update carries
    the worker's status and output payload, and the task's taskId and
    workflowInstanceId.  It is the only record when the logger and the
    error handler return; a second one is the failed record of the
    [catch] block. *)
Theorem executeTask_worker_success (E : Env) (task : Obj) (st : State)
    (result : Obj) :
  settled (execute_reply E (trace st ++ [EvExecute task])) = Resolved result ->
  let taskResult := completed_result task result in
  (exists c st' evs k more later,
     executeTask E task st = (c, st')
     /\ trace st' = trace st ++ evs
     /\ invocations evs = (task, taskResult) :: more
     /\ updates evs = replicate k taskResult ++ later
     /\ 1 <= k <= MAX_RETRIES
     /\ ((more = [] /\ later = [])
         \/ exists error k',
              more = [(task, failed_result task error)]
              /\ later = replicate k' (failed_result task error)
              /\ 1 <= k' <= MAX_RETRIES)
     /\ (calls_return E (trace st) evs = true ->
         forall taskId,
           text_of E (obj_get task "taskId") = Some taskId ->
           c = Normal tt /\ more = [] /\ later = []))
  /\ obj_get taskResult "status" = obj_get result "status"
  /\ obj_get taskResult "outputData" = obj_get result "outputData"
  /\ obj_get taskResult "taskId" = obj_get task "taskId"
  /\ obj_get taskResult "workflowInstanceId"
     = obj_get task "workflowInstanceId".
Proof.
  intros Hs taskResult. split.
  - by apply executeTask_completed_deliveries.
  - subst taskResult.
    rewrite completed_result_taskId, completed_result_workflowInstanceId.
    unfold obj_get. rewrite !completed_result_other by done. done.
Qed.

(** C10: when the worker raises an error whose message field is the
    empty string, reasonForIncompletion is the empty string and not the
    default message; a message that is neither null nor undefined is
    never replaced by the default. *)
Theorem executeTask_empty_message (E : Env) (task : Obj) (st : State)
    (fields : Obj) :
  settled (execute_reply E (trace st ++ [EvExecute task]))
    = Rejected (VObj fields) ->
  fields !! "message" = Some (VStr "") ->
  let taskResult := failed_result task (VObj fields) in
  (exists c st' evs k,
     executeTask E task st = (c, st')
     /\ trace st' = trace st ++ evs
     /\ invocations evs = [(task, taskResult)]
     /\ updates evs = replicate k taskResult
     /\ 1 <= k <= MAX_RETRIES
     /\ (calls_return E (trace st) evs = true ->
         forall taskId,
           text_of E (obj_get task "taskId") = Some taskId -> c = Normal tt))
  /\ obj_get taskResult "reasonForIncompletion" = VStr ""
  /\ VStr "" <> VStr DEFAULT_ERROR_MESSAGE
  /\ (forall error,
        is_nullish (opt_chain error "message") = false ->
        obj_get (failed_result task error) "reasonForIncompletion"
        = opt_chain error "message").
Proof.
  intros Hs Hmsg taskResult. split; [| split; [| split]].
  - by apply executeTask_failed_deliveries.
  - subst taskResult. rewrite failed_result_reason.
    unfold opt_chain, get_prop, obj_get. rewrite Hmsg. reflexivity.
  - discriminate.
  - intros error Hdef. rewrite failed_result_reason.
    unfold nullish_coalesce. rewrite Hdef. reflexivity.
Qed.

(** ** Where the failures of a smooth run go *)

Lemma split_before_tail {A} (l tail pre post : list A) (x : A) :
  l ++ tail = pre ++ x :: post ->
  x ∉ tail ->
  exists k, l = pre ++ x :: k /\ post = k ++ tail.
Proof.
  intros Heq Hnot.
  apply app_eq_inv in Heq as [(k & Hl & Hk) | (k & Hpre & Htail)].
  - destruct k as [| y k]; simpl in Hk.
    + exfalso. apply Hnot. rewrite <- Hk. by left.
    + injection Hk as <- ->. eauto.
  - exfalso. apply Hnot. rewrite Htail. apply elem_of_app. right. by left.
Qed.

(** Membership in a list that is written out. *)
Ltac elem_cases H :=
  repeat (apply elem_of_cons in H as [H | H]; [try discriminate H |]);
  try (by apply elem_of_nil in H).

(** In a smooth run of [executeTask] the failures go to the error
    handler, with the task.  The only error-level line without an error
    value is the terminal line of the retry loop. *)
Lemma SmoothExec_reports E task taskId h evs :
  SmoothExec E task taskId h evs ->
  exists body,
    evs = EvExecute task :: body
    /\ (forall msg, EvLogError msg None ∈ body ->
          msg = terminal_line taskId MAX_RETRIES)
    /\ (forall e t, EvOnError e t ∈ body -> t = Some task)
    /\ (forall e,
          settled (execute_reply E (h ++ [EvExecute task])) = Rejected e ->
          EvOnError e (Some task) ∈ body)
    /\ (forall pre r post e,
          body = pre ++ EvUpdateTask r :: post ->
          settled (update_reply E
                     (h ++ EvExecute task :: pre ++ [EvUpdateTask r]))
            = Rejected e ->
          exists post', post = EvOnError e (Some task) :: post').
Proof.
  intros (taskResult & loop & tail & -> & Hsmooth & Hcase).
  eexists. split; [reflexivity |].
  assert (Htail : (forall msg, EvLogError msg None ∉ tail)
                  /\ (forall e t, EvOnError e t ∈ tail -> t = Some task)
                  /\ (forall r, EvUpdateTask r ∉ tail)).
  { destruct Hcase as [(result & _ & _ & ->) | (error & _ & _ & ->)].
    - split; [| split].
      + intros msg Hin. elem_cases Hin.
      + intros e t Hin. elem_cases Hin.
      + intros r Hin. elem_cases Hin.
    - split; [| split].
      + intros msg Hin. elem_cases Hin.
      + intros e t Hin. elem_cases Hin. by injection Hin as _ ->.
      + intros r Hin. elem_cases Hin. }
  destruct Htail as (Hplain & Hhandler & Hupd).
  split; [| split; [| split]].
  - intros msg Hin.
    apply elem_of_cons in Hin as [Hin | Hin]; [discriminate |].
    apply elem_of_app in Hin as [Hin | Hin]; [| by apply Hplain in Hin].
    apply (SmoothRun_plain_error_lines _ _ _ _ _ _ _ _ Hsmooth);
      [unfold MAX_RETRIES; lia | exact Hin].
  - intros e t Hin.
    apply elem_of_cons in Hin as [Hin | Hin]; [discriminate |].
    apply elem_of_app in Hin as [Hin | Hin]; [| by eapply Hhandler].
    by eapply SmoothRun_handler_calls.
  - intros e He.
    destruct Hcase as [(result & Hs & _) | (error & Hs & _ & ->)];
      [congruence |].
    rewrite Hs in He. injection He as ->.
    apply elem_of_cons. right. apply elem_of_app. right. by left.
  - intros pre r post e Hsplit Hrej.
    destruct pre as [| ev pre]; [discriminate |].
    simpl in Hsplit. injection Hsplit as <- Hsplit.
    destruct (split_before_tail _ _ _ _ _ Hsplit (Hupd r)) as (k & Hevs & ->).
    destruct (SmoothRun_failures_reported _ _ _ _ _ _ _ Hsmooth pre r k e Hevs)
      as (post' & ->).
    + rewrite <- Hrej. f_equal. rewrite <- app_assoc. reflexivity.
    + simpl. eauto.
Qed.

Section TurnsContained.

Variable E : Env.
Variable R : TaskRunner.

(** A turn in which every call came back, by what the fetch did. *)
Lemma TurnRun_smooth h evs c :
  TurnRun E R h evs c ->
  calls_return E h evs = true ->
  (forall e message stack,
     settled (poll_reply E (h ++ [poll_request R])) = Rejected e ->
     is_nullish e = false ->
     text_of E (kept_field e "message") = Some message ->
     text_of E (kept_field e "stack") = Some stack ->
     c = Normal tt
     /\ evs = [poll_request R;
               EvLogError (unknown_error_line R message stack) None;
               EvOnError e None;
               EvTimer (pollInterval (options R))])
  /\ (forall task,
        settled (poll_reply E (h ++ [poll_request R])) = Resolved task ->
        no_task task ->
        c = Normal tt
        /\ evs = [poll_request R;
                  EvLogDebug ("No tasks for " +:+ taskDefName (worker R));
                  EvTimer (pollInterval (options R))])
  /\ (forall t taskId,
        settled (poll_reply E (h ++ [poll_request R])) = Resolved (Some t) ->
        truthy (obj_get t "taskId") = true ->
        text_of E (obj_get t "taskId") = Some taskId ->
        c = Normal tt
        /\ exists body,
             evs = poll_request R :: body
                     ++ [EvTimer (pollInterval (options R))]
             /\ SmoothExec E t taskId (h ++ [poll_request R]) body).
Proof.
  intros Hturn Hcr.
  assert (Hbody : exists pre post c0,
            evs = pre ++ post
            /\ BodyRun E R h pre c0
            /\ calls_return E h pre = true
            /\ calls_return E (h ++ pre) post = true
            /\ match c0 with
               | Normal _ =>
                   c = Normal tt
                   /\ post = [EvTimer (pollInterval (options R))]
               | Throw u =>
                   exists caught,
                     CatchRun E R u (h ++ pre) caught c
                     /\ calls_return E (h ++ pre) caught = true
                     /\ post = caught
                              ++ match c with
                                 | Normal _ =>
                                     [EvTimer (pollInterval (options R))]
                                 | _ => []
                                 end
               | Hang => c = Hang /\ post = []
               end).
  { destruct Hturn as [h evs Hbody | h evs Hbody | h evs u evs' Hbody Hcatch
                      | h evs u evs' c Hbody Hcatch Hc].
    - apply calls_return_split in Hcr as [Hcr1 Hcr2].
      exists evs, [EvTimer (pollInterval (options R))], (Normal tt).
      by repeat split.
    - exists evs, [], Hang. rewrite app_nil_r. by repeat split.
    - apply calls_return_split in Hcr as [Hcr1 Hcr2].
      exists evs, (evs' ++ [EvTimer (pollInterval (options R))]), (Throw u).
      split; [reflexivity |]. split; [exact Hbody |].
      split; [exact Hcr1 |]. split; [exact Hcr2 |].
      apply calls_return_split in Hcr2 as [Hcr2 _].
      exists evs'. by repeat split.
    - apply calls_return_split in Hcr as [Hcr1 Hcr2].
      exists evs, evs', (Throw u).
      split; [reflexivity |]. split; [exact Hbody |].
      split; [exact Hcr1 |]. split; [exact Hcr2 |].
      exists evs'. split; [exact Hcatch |]. split; [exact Hcr2 |].
      destruct c as [[] | |]; [contradiction | by rewrite app_nil_r ..]. }
  destruct Hbody as (pre & post & c0 & -> & Hbody & Hcr1 & Hcr2 & Hrest).
  destruct (BodyRun_smooth _ _ _ _ _ Hbody Hcr1)
    as [(u & Hs & -> & ->)
       | [(task & Hs & Hno & -> & ->)
         | (t & body & Hs & Hid & -> & Hexec & Hcrb)]].
  - destruct Hrest as (caught & Hcatch & Hcrc & ->).
    split; [| split].
    + intros e message stack He Hdef Hm Hst.
      rewrite Hs in He. injection He as <-.
      destruct (CatchRun_smooth _ _ _ _ _ _ _ _ Hcatch Hcrc Hdef Hm Hst)
        as [-> ->].
      by split.
    + intros task He. congruence.
    + intros t taskId He. congruence.
  - destruct Hrest as [-> ->].
    split; [| split].
    + intros e message stack He. congruence.
    + intros task' _ _. by split.
    + intros t taskId He Hid. rewrite Hs in He. injection He as ->.
      unfold no_task in Hno. congruence.
  - split; [| split].
    + intros e message stack He. congruence.
    + intros task He Hno. rewrite Hs in He. injection He as <-.
      unfold no_task in Hno. congruence.
    + intros t' taskId He _ Htext. rewrite Hs in He. injection He as <-.
      destruct (ExecRun_smooth _ _ _ Htext _ _ _ Hexec Hcrb) as [-> Hsm].
      destruct Hrest as [-> ->]. split; [reflexivity |]. by exists body.
Qed.

Lemma BodyRun_executes h evs c t :
  BodyRun E R h evs c ->
  settled (poll_reply E (h ++ [poll_request R])) = Resolved (Some t) ->
  truthy (obj_get t "taskId") = true ->
  exists rest, evs = poll_request R :: EvExecute t :: rest.
Proof.
  destruct 1 as [h c Hs | h task Hs Hno | h t' evs c Hs Hid Hrun];
    intros Hs' Hid'.
  - rewrite Hs' in Hs. discriminate.
  - rewrite Hs' in Hs. injection Hs as <-. unfold no_task in Hno. congruence.
  - rewrite Hs' in Hs. injection Hs as <-.
    destruct (ExecRun_calls _ _ _ _ _ Hrun) as (rest & -> & _). by exists rest.
Qed.

Lemma TurnRun_executes h evs c t :
  TurnRun E R h evs c ->
  settled (poll_reply E (h ++ [poll_request R])) = Resolved (Some t) ->
  truthy (obj_get t "taskId") = true ->
  exists rest, evs = poll_request R :: EvExecute t :: rest.
Proof.
  destruct 1 as [h evs Hbody | h evs Hbody | h evs u evs' Hbody Hcatch
                 | h evs u evs' c Hbody Hcatch Hc];
    intros Hs Hid;
    destruct (BodyRun_executes _ _ _ _ Hbody Hs Hid) as (rest & ->);
    eexists; reflexivity.
Qed.

(** Such a turn returns, when the error of its fetch and the taskId of
    its task have a text. *)
Lemma TurnRun_contained h evs c :
  TurnRun E R h evs c ->
  calls_return E h evs = true ->
  (forall e,
     settled (poll_reply E (h ++ [poll_request R])) = Rejected e ->
     is_nullish e = false
     /\ printable E (kept_field e "message")
     /\ printable E (kept_field e "stack")) ->
  (forall t, t ∈ executions evs -> printable E (obj_get t "taskId")) ->
  c = Normal tt.
Proof.
  intros Hturn Hcr Hfetch Hexec.
  destruct (TurnRun_smooth _ _ _ Hturn Hcr) as (Hrej & Hidle & Htask).
  destruct (TurnRun_calls _ _ _ _ _ Hturn) as (rest & -> & _).
  destruct (settled (poll_reply E (h ++ [poll_request R])))
    as [[t |] | e |] eqn:Hs.
  - destruct (truthy (obj_get t "taskId")) eqn:Hid.
    + assert (Hin : t ∈ executions (poll_request R :: rest)).
      { destruct (TurnRun_executes _ _ _ _ Hturn Hs Hid) as (rest' & Heq).
        rewrite Heq. simpl. by left. }
      destruct (text_of E (obj_get t "taskId")) as [taskId |] eqn:Htext;
        [| by destruct (Hexec t Hin)].
      by destruct (Htask t taskId eq_refl Hid Htext).
    + by destruct (Hidle (Some t) eq_refl Hid).
  - by destruct (Hidle None eq_refl I).
  - destruct (Hfetch e eq_refl) as (Hdef & Hm & Hst).
    destruct (text_of E (kept_field e "message")) as [message |] eqn:Hmsg;
      [| by destruct Hm].
    destruct (text_of E (kept_field e "stack")) as [stack |] eqn:Hstk;
      [| by destruct Hst].
    by destruct (Hrej e message stack eq_refl Hdef Hmsg Hstk).
  - exfalso. apply calls_return_cons in Hcr as [Hcall _].
    unfold call_returns, poll_request in Hcall. fold (poll_request R) in Hcall.
    rewrite Hs in Hcall. discriminate.
Qed.

End TurnsContained.

(** * Error funnel *)

(** C9, at the value [undefined]: reading [stack] off it raises, and
    [handleUnknownError] logs nothing. *)
Theorem handleUnknownError_undefined_raises (E : Env) (R : TaskRunner)
    (st : State) :
  handleUnknownError E R VUndefined st
  = (Throw (type_error E VUndefined "stack"), st).
Proof. by apply handleUnknownError_nullish. Qed.

(** * Poll loop *)

Section PollLoopRuns.

Variable E : Env.
Variable R : TaskRunner.

(** Every turn starts with a request to the queue service. *)
Lemma poll_iteration_starts st :
  exists evs,
    trace (poll_iteration E R st).2 = trace st ++ poll_request R :: evs.
Proof.
  destruct (poll_iteration_runs E R st) as (c & st' & evs & Hrun & Htr & Hturn).
  destruct (TurnRun_calls _ _ _ _ _ Hturn) as (rest & -> & _).
  rewrite Hrun. simpl. eauto.
Qed.

(** The loop only adds to the trace. *)
Lemma poll_extends fuel st :
  exists evs, trace (poll E R fuel st).2 = trace st ++ evs.
Proof.
  revert st. induction fuel as [| fuel IH]; intros st; simpl.
  - exists []. rewrite app_nil_r. by destruct (isPolling st).
  - destruct (isPolling st); [| exists []; by rewrite app_nil_r].
    destruct (poll_iteration_starts st) as (evs & Hevs).
    destruct (poll_iteration E R st) as [[[] | e |] st1]; simpl in Hevs.
    + destruct (IH st1) as (evs' & Hevs').
      rewrite Hevs', Hevs, <- app_assoc. eauto.
    + simpl. eauto.
    + simpl. eauto.
Qed.

(** While the runner is polling, the loop starts with a request. *)
Lemma poll_starts fuel st :
  isPolling st = true ->
  exists evs,
    trace (poll E R (S fuel) st).2 = trace st ++ poll_request R :: evs.
Proof.
  intros Hp. simpl. rewrite Hp.
  destruct (poll_iteration_starts st) as (evs & Hevs).
  destruct (poll_iteration E R st) as [[[] | e |] st1]; simpl in Hevs.
  - destruct (poll_extends fuel st1) as (evs' & Hevs').
    rewrite Hevs', Hevs, <- app_assoc. simpl. eauto.
  - simpl. eauto.
  - simpl. eauto.
Qed.

(** The promise of the loop is not rejected, and the loop does not
    hang, when every call comes back, no fetch is rejected with null or
    undefined, and the values that are printed have a text. *)
Lemma poll_contained fuel st :
  exists evs,
    trace (poll E R fuel st).2 = trace st ++ evs
    /\ (calls_return E (trace st) evs = true ->
        (forall pre post e,
           evs = pre ++ poll_request R :: post ->
           settled (poll_reply E (trace st ++ pre ++ [poll_request R]))
             = Rejected e ->
           is_nullish e = false
           /\ printable E (kept_field e "message")
           /\ printable E (kept_field e "stack")) ->
        (forall t, t ∈ executions evs -> printable E (obj_get t "taskId")) ->
        (poll E R fuel st).1 = Finished (Normal tt)
        \/ (poll E R fuel st).1 = StillPolling).
Proof.
  revert st. induction fuel as [| fuel IH]; intros st; simpl.
  - exists []. rewrite app_nil_r. destruct (isPolling st); auto.
  - destruct (isPolling st); [| exists []; rewrite app_nil_r; auto].
    destruct (poll_iteration_runs E R st)
      as (c & st1 & evs & Hrun & Htr & Hturn).
    rewrite Hrun.
    assert (Hc : calls_return E (trace st) evs = true ->
                 (forall e,
                    settled (poll_reply E (trace st ++ [poll_request R]))
                      = Rejected e ->
                    is_nullish e = false
                    /\ printable E (kept_field e "message")
                    /\ printable E (kept_field e "stack")) ->
                 (forall t, t ∈ executions evs ->
                            printable E (obj_get t "taskId")) ->
                 c = Normal tt)
      by (by apply TurnRun_contained).
    destruct (TurnRun_calls _ _ _ _ _ Hturn) as (rest & Hrest & _).
    destruct c as [[] | e |].
    + destruct (IH st1) as (evs' & Htr' & Hnext).
      exists (evs ++ evs'). split; [by rewrite Htr', Htr, app_assoc |].
      intros Hcr Hfetch Hexec.
      apply calls_return_split in Hcr as [_ Hcr].
      rewrite Htr in Hnext. apply Hnext; [exact Hcr | |].
      * intros pre post e Hsplit Hrej.
        apply (Hfetch (evs ++ pre) post e); [by rewrite Hsplit, app_assoc |].
        by rewrite <- !app_assoc in *.
      * intros t Hin. apply Hexec. unfold executions.
        rewrite omap_app. apply elem_of_app. by right.
    + exists evs. split; [exact Htr |].
      intros Hcr Hfetch Hexec. exfalso.
      assert (Habs : Throw e = Normal tt); [| discriminate].
      apply Hc; [exact Hcr | | exact Hexec].
      intros e' He'. apply (Hfetch [] rest e'); [exact Hrest | exact He'].
    + exists evs. split; [exact Htr |].
      intros Hcr Hfetch Hexec. exfalso.
      assert (Habs : Hang = Normal tt); [| discriminate].
      apply Hc; [exact Hcr | | exact Hexec].
      intros e' He'. apply (Hfetch [] rest e'); [exact Hrest | exact He'].
Qed.



End PollLoopRuns.

(** C1, as the code has it.  In a turn of the poll loop in which every
    call comes back, that is, every promise settles and the logger and
    the error handler return: an error of the fetch that is neither null
    nor undefined is caught in the loop body and goes through
    [handleUnknownError], which logs "Error for <task type>: error:
    <message>, stack: <stack>", and then to the error handler, without a
    task; an error of the worker or of an update attempt is caught
    inside [executeTask] or [updateTaskWithRetry] and goes to the error
    handler together with the task that was fetched, not through
    [handleUnknownError].  Either way the turn returns with the
    poll-interval sleep as its last step and the loop goes on to its
    next turn.  Over the whole loop: when every call comes back, no
    fetch is rejected with null or undefined and the values that are
    printed have a text, the promise of the loop is not rejected. *)
Theorem poll_errors_contained (E : Env) (R : TaskRunner) :
  (forall st,
     exists c st' evs,
       poll_iteration E R st = (c, st')
       /\ trace st' = trace st ++ poll_request R :: evs
       /\ (forall fuel, isPolling st = true -> c = Normal tt ->
                        poll E R (S fuel) st = poll E R fuel st')
       /\ (calls_return E (trace st) (poll_request R :: evs) = true ->
           (forall e message stack,
              settled (poll_reply E (trace st ++ [poll_request R]))
                = Rejected e ->
              is_nullish e = false ->
              text_of E (kept_field e "message") = Some message ->
              text_of E (kept_field e "stack") = Some stack ->
              c = Normal tt
              /\ evs = [EvLogError
                          ("Error for " +:+ taskDefName (worker R)
                             +:+ ": error: " +:+ message
                             +:+ ", stack: " +:+ stack) None;
                        EvOnError e None;
                        EvTimer (pollInterval (options R))])
           /\ (forall t taskId,
                 settled (poll_reply E (trace st ++ [poll_request R]))
                   = Resolved (Some t) ->
                 truthy (obj_get t "taskId") = true ->
                 text_of E (obj_get t "taskId") = Some taskId ->
                 c = Normal tt
                 /\ exists body,
                      evs = EvExecute t :: body
                              ++ [EvTimer (pollInterval (options R))]
                      /\ (forall message stack,
                            EvLogError
                              ("Error for " +:+ taskDefName (worker R)
                                 +:+ ": error: " +:+ message
                                 +:+ ", stack: " +:+ stack) None
                            ∉ body)
                      /\ (forall e task, EvOnError e task ∈ body ->
                                         task = Some t)
                      /\ (forall e,
                            settled (execute_reply E
                                       (trace st ++
                                          [poll_request R; EvExecute t]))
                              = Rejected e ->
                            EvOnError e (Some t) ∈ body)
                      /\ (forall pre r post e,
                            body = pre ++ EvUpdateTask r :: post ->
                            settled (update_reply E
                                       (trace st ++
                                          poll_request R :: EvExecute t
                                            :: pre ++ [EvUpdateTask r]))
                              = Rejected e ->
                            exists post',
                              post = EvOnError e (Some t) :: post'))))
  /\ (forall fuel st,
        exists evs,
          trace (poll E R fuel st).2 = trace st ++ evs
          /\ (calls_return E (trace st) evs = true ->
              (forall pre post e,
                 evs = pre ++ poll_request R :: post ->
                 settled (poll_reply E (trace st ++ pre ++ [poll_request R]))
                   = Rejected e ->
                 is_nullish e = false
                 /\ printable E (kept_field e "message")
                 /\ printable E (kept_field e "stack")) ->
              (forall t, t ∈ executions evs ->
                         printable E (obj_get t "taskId")) ->
              (poll E R fuel st).1 = Finished (Normal tt)
              \/ (poll E R fuel st).1 = StillPolling)).
Proof.
  split; [| by apply poll_contained].
  intros st.
  destruct (poll_iteration_runs E R st) as (c & st' & evs0 & Hrun & Htr & Hturn).
  destruct (TurnRun_calls _ _ _ _ _ Hturn) as (evs & -> & _).
  exists c, st', evs. split; [exact Hrun |]. split; [exact Htr |].
  split; [intros fuel Hp ->; by apply poll_next_turn |].
  intros Hcr.
  destruct (TurnRun_smooth _ _ _ _ _ Hturn Hcr) as (Hrej & _ & Htask).
  split.
  - intros e message stack Hs Hdef Hm Hst.
    destruct (Hrej e message stack Hs Hdef Hm Hst) as [-> Heq].
    injection Heq as ->. by split.
  - intros t taskId Hs Hid Htext.
    destruct (Htask t taskId Hs Hid Htext) as [-> (body0 & Heq & Hsm)].
    injection Heq as ->. split; [reflexivity |].
    destruct (SmoothExec_reports _ _ _ _ _ Hsm)
      as (body & -> & Hplain & Hhandler & Hexec & Hupd).
    exists body. split; [reflexivity |].
    split; [| split; [| split]].
    + intros message stack Hin. apply Hplain in Hin. discriminate.
    + exact Hhandler.
    + intros e He. apply Hexec. by rewrite <- app_assoc.
    + intros pre r post e Hsplit He. apply (Hupd pre r post e Hsplit).
      by rewrite <- app_assoc.
Qed.

(** C6: [startPolling] on a runner that is polling fails with the
    "already started" error and leaves the state as it was; on a stopped
    runner, also after [stopPolling], it sets the flag and runs the poll
    loop, whose first step is a request to the queue service. *)
Theorem startPolling_transitions (E : Env) (R : TaskRunner) (fuel : nat)
    (st : State) :
  (isPolling st = true ->
   startPolling E R fuel st
   = (Finished (Throw (new_Error E "Runner is already started")), st))
  /\ (isPolling st = false ->
      startPolling E R fuel st = poll E R fuel (mkState true (trace st))
      /\ exists evs,
           trace (startPolling E R (S fuel) st).2
           = trace st ++ poll_request R :: evs)
  /\ isPolling (stopPolling st) = false
  /\ trace (stopPolling st) = trace st.
Proof.
  split; [| split; [| by split]].
  - intros Hp. unfold startPolling. rewrite Hp. reflexivity.
  - intros Hp. unfold startPolling. rewrite Hp. split; [reflexivity |].
    apply (poll_starts E R fuel (mkState true (trace st))). reflexivity.
Qed.


(** * The claims on sample hosts *)

Import Sample.

(** C1 as stated fails: an error of the worker does not go through
    [handleUnknownError]; no line of it is in the trace of the turn. *)
Lemma poll_iteration_worker_error_skips_funnel :
  ~ (forall (E : Env) (R : TaskRunner) (st : State) (t : Obj) (e : JsVal),
       settled (poll_reply E (trace st ++ [poll_request R]))
         = Resolved (Some t) ->
       truthy (obj_get t "taskId") = true ->
       settled (execute_reply E (trace st ++ [poll_request R; EvExecute t]))
         = Rejected e ->
       exists message stack,
         EvLogError (unknown_error_line R message stack) None
         ∈ trace (poll_iteration E R st).2).
Proof.
  intros Hclaim.
  destruct (Hclaim worker_raises runner started task_t1 boom
              eq_refl eq_refl eq_refl) as (message & stack & Hin).
  vm_compute in Hin. elem_cases Hin.
Qed.

(** The turn of that run, event by event. *)
Example poll_iteration_worker_raises :
  poll_iteration worker_raises runner started
  = (Normal tt,
     mkState false
       [ EvPoll "greet" "worker-1" None;
         EvExecute task_t1;
         EvEnterUpdateWithRetry task_t1
           {[ "workflowInstanceId" := VStr "w1"; "taskId" := VStr "t1";
              "reasonForIncompletion" := VStr "boom";
              "status" := VStr "FAILED"; "outputData" := VObj ∅ ]};
         EvUpdateTask
           {[ "workflowInstanceId" := VStr "w1"; "taskId" := VStr "t1";
              "reasonForIncompletion" := VStr "boom";
              "status" := VStr "FAILED"; "outputData" := VObj ∅ ]};
         EvOnError boom (Some task_t1);
         EvLogError "Error executing t1" (Some boom);
         EvTimer 100 ]).
Proof. vm_compute. reflexivity. Qed.

(** An error handler that raises where [poll] calls it ends the loop:
    the promise of [poll] is rejected with what the handler raised, and
    the turn does not sleep. *)
Example poll_rejected_by_error_handler :
  poll fetch_fails_handler_raises runner 5 started
  = (Finished (Throw oops),
     mkState true
       [ EvPoll "greet" "worker-1" None;
         EvLogError "Error for greet: error: ECONNREFUSED, stack: " None;
         EvOnError refused None ]).
Proof. vm_compute. reflexivity. Qed.

Lemma poll_errors_contained_service_down :
  exists st',
    poll_iteration service_down runner started = (Normal tt, st')
    /\ trace st' =
         [ EvPoll "greet" "worker-1" None;
           EvLogError "Error for greet: error: ECONNREFUSED, stack: " None;
           EvOnError refused None;
           EvTimer 100 ]
    /\ (poll service_down runner 5 started).1 = Finished (Normal tt).
Proof.
  destruct (poll_errors_contained service_down runner) as [Hturn Hloop].
  destruct (Hturn started) as (c & st' & evs & Hrun & Htr & _ & Hsmooth).
  assert (Hevs : evs = [ EvLogError
                           "Error for greet: error: ECONNREFUSED, stack: "
                           None;
                         EvOnError refused None;
                         EvTimer 100 ]).
  { pose proof Hrun as Hrun'. vm_compute in Hrun'.
    injection Hrun' as _ <-. vm_compute in Htr. by injection Htr as <-. }
  subst evs.
  destruct (Hsmooth eq_refl) as [Hfetch _].
  destruct (Hfetch refused "ECONNREFUSED" "" eq_refl eq_refl eq_refl eq_refl)
    as [-> _].
  exists st'. split; [exact Hrun |]. split; [exact Htr |].
  destruct (Hloop 5 started) as (evs & Hevs & Hcontained).
  vm_compute in Hevs. subst evs.
  assert (Hok : (poll service_down runner 5 started).1 = Finished (Normal tt)
                \/ (poll service_down runner 5 started).1 = StillPolling).
  { apply Hcontained.
    - vm_compute. reflexivity.
    - intros pre post e _ Hrej. simpl in Hrej. injection Hrej as <-.
      split; [reflexivity |]. split; vm_compute; discriminate.
    - intros t Hin. vm_compute in Hin. elem_cases Hin. }
  destruct Hok as [Hfin | Hstill]; [exact Hfin |].
  vm_compute in Hstill. discriminate.
Defined.


(** That run: one attempt, the error handler, and the error it
    raised. *)
Example updateTaskWithRetry_handler_raises :
  updateTaskWithRetry handler_raises task_t1 task_t1 stopped
  = (Throw oops,
     mkState false
       [ EvEnterUpdateWithRetry task_t1 task_t1;
         EvUpdateTask task_t1;
         EvOnError refused (Some task_t1) ]).
Proof. vm_compute. reflexivity. Qed.





(** That run: the error handler's error replaces the worker's result. *)
Example executeTask_handler_raises :
  executeTask handler_raises task_t1 started
  = (Throw oops,
     mkState true
       [ EvExecute task_t1;
         EvEnterUpdateWithRetry task_t1 (completed_result task_t1 completed);
         EvUpdateTask (completed_result task_t1 completed);
         EvOnError refused (Some task_t1);
         EvEnterUpdateWithRetry task_t1 (failed_result task_t1 oops);
         EvUpdateTask (failed_result task_t1 oops);
         EvOnError refused (Some task_t1) ])
  /\ obj_get (failed_result task_t1 oops) "status" = VStr "FAILED"
  /\ obj_get (failed_result task_t1 oops) "reasonForIncompletion" = VStr "oops".
Proof. split; [| split]; vm_compute; reflexivity. Qed.


Lemma startPolling_transitions_sample :
  startPolling worker_raises runner 3 started
  = (Finished (Throw (v8_Error "Runner is already started")), started)
  /\ startPolling worker_raises runner 3 (stopPolling started)
     = poll worker_raises runner 3 started.
Proof.
  destruct (startPolling_transitions worker_raises runner 3 started)
    as (Hrunning & _ & _).
  destruct (startPolling_transitions worker_raises runner 3
              (stopPolling started)) as (_ & Hstopped & _).
  split.
  - apply Hrunning. reflexivity.
  - apply Hstopped. reflexivity.
Defined.


(** That turn, event by event. *)
Example poll_iteration_debug_raises :
  poll_iteration debug_raises runner started
  = (Normal tt,
     mkState false
       [ EvPoll "greet" "worker-1" None;
         EvLogDebug "No tasks for greet";
         EvLogError "Error for greet: error: oops, stack: " None;
         EvOnError oops None;
         EvTimer 100 ]).
Proof. vm_compute. reflexivity. Qed.


Lemma executeTask_worker_failure_boom :
  settled (execute_reply worker_raises (trace started ++ [EvExecute task_t1]))
  = Rejected boom
  /\ failed_result task_t1 boom
     = {[ "taskId" := VStr "t1"; "workflowInstanceId" := VStr "w1";
          "status" := VStr "FAILED"; "reasonForIncompletion" := VStr "boom";
          "outputData" := VObj ∅ ]}
  /\ obj_get (failed_result task_t1 boom) "reasonForIncompletion" = VStr "boom"
  /\ exists st' evs k,
       executeTask worker_raises task_t1 started = (Normal tt, st')
       /\ trace st' = trace started ++ evs
       /\ invocations evs = [(task_t1, failed_result task_t1 boom)]
       /\ updates evs = replicate k (failed_result task_t1 boom)
       /\ 1 <= k <= MAX_RETRIES.
Proof.
  split; [reflexivity |]. split; [vm_compute; reflexivity |].
  destruct (executeTask_worker_failure worker_raises task_t1 started boom
              eq_refl) as (Hrun & _ & _ & _ & _ & Hreason).
  split; [exact Hreason |].
  destruct Hrun as (c & st' & evs & k & Hrun & Htr & Hinv & Hupd & Hk & Hc).
  assert (Hcr : calls_return worker_raises (trace started) evs = true).
  { pose proof Hrun as Hrun'. vm_compute in Hrun'.
    injection Hrun' as _ <-. vm_compute in Htr. subst evs.
    vm_compute. reflexivity. }
  rewrite (Hc Hcr "t1" eq_refl) in Hrun.
  by exists st', evs, k.
Defined.

Lemma executeTask_worker_success_completed :
  settled (execute_reply worker_returns (trace started ++ [EvExecute task_t1]))
  = Resolved completed
  /\ completed_result task_t1 completed
     = {[ "taskId" := VStr "t1"; "workflowInstanceId" := VStr "w1";
          "status" := VStr "COMPLETED";
          "outputData" := VObj {[ "x" := VNum 1 ]} ]}
  /\ obj_get (completed_result task_t1 completed) "status" = VStr "COMPLETED"
  /\ exists st' evs k,
       executeTask worker_returns task_t1 started = (Normal tt, st')
       /\ trace st' = trace started ++ evs
       /\ invocations evs = [(task_t1, completed_result task_t1 completed)]
       /\ updates evs = replicate k (completed_result task_t1 completed)
       /\ 1 <= k <= MAX_RETRIES.
Proof.
  split; [reflexivity |]. split; [vm_compute; reflexivity |].
  destruct (executeTask_worker_success worker_returns task_t1 started completed
              eq_refl) as (Hrun & Hstatus & _).
  split; [exact Hstatus |].
  destruct Hrun
    as (c & st' & evs & k & more & later & Hrun & Htr & Hinv & Hupd & Hk & _
        & Hc).
  assert (Hcr : calls_return worker_returns (trace started) evs = true).
  { pose proof Hrun as Hrun'. vm_compute in Hrun'.
    injection Hrun' as _ <-. vm_compute in Htr. subst evs.
    vm_compute. reflexivity. }
  destruct (Hc Hcr "t1" eq_refl) as (-> & -> & ->).
  rewrite app_nil_r in Hupd. by exists st', evs, k.
Defined.

Lemma executeTask_empty_message_blank :
  settled (execute_reply worker_raises_blank
             (trace started ++ [EvExecute task_t1]))
  = Rejected blank
  /\ obj_get (failed_result task_t1 blank) "reasonForIncompletion" = VStr ""
  /\ updates (trace (executeTask worker_raises_blank task_t1 started).2)
     = [ {[ "taskId" := VStr "t1"; "workflowInstanceId" := VStr "w1";
            "status" := VStr "FAILED"; "reasonForIncompletion" := VStr "";
            "outputData" := VObj ∅ ]} ].
Proof.
  split; [reflexivity |].
  destruct (executeTask_empty_message worker_raises_blank task_t1 started
              {[ "message" := VStr "" ]} eq_refl eq_refl)
    as (_ & Hreason & _).
  split; [exact Hreason | vm_compute; reflexivity].
Defined.

(** C9 and C1 when the fetch is rejected with [undefined]: the loop ends
    with the TypeError of [handleUnknownError]; nothing is logged, the
    error handler is not called and there is no sleep. *)
Example poll_fetch_rejects_undefined :
  poll fetch_rejects_undefined runner 5 started
  = (Finished
       (Throw (v8_TypeError VUndefined "stack")),
     mkState true [ EvPoll "greet" "worker-1" None ]).
Proof. vm_compute. reflexivity. Qed.

(** A value that is neither null nor undefined is handled: one line,
    with the empty string for each field it lacks. *)
Example handleUnknownError_string :
  handleUnknownError worker_raises runner (VStr "oops") stopped
  = (Normal tt,
     mkState false [ EvLogError "Error for greet: error: , stack: " None ]).
Proof. vm_compute. reflexivity. Qed.

(** * More of the runner *)

(** ** The flag *)


(** X2: the promise of the loop resolves only once the flag is clear,
    and the runner can then be started again. *)
Theorem poll_settles_with_flag (E : Env) (R : TaskRunner) (fuel : nat)
    (st : State) :
  (poll E R fuel st).1 = Finished (Normal tt) ->
  isPolling (poll E R fuel st).2 = false
  /\ forall E' R' fuel',
       startPolling E' R' fuel' (poll E R fuel st).2
       = poll E' R' fuel' (mkState true (trace (poll E R fuel st).2)).
Proof.
  assert (Hflag : forall fuel st,
            (poll E R fuel st).1 = Finished (Normal tt) ->
            isPolling (poll E R fuel st).2 = false).
  { clear fuel st. intros fuel.
    induction fuel as [| fuel IH]; intros st; simpl.
    - destruct (isPolling st) eqn:Hp; simpl; [discriminate | by intros _].
    - destruct (isPolling st) eqn:Hp; simpl; [| by intros _].
      destruct (poll_iteration E R st) as [[[] | e |] st1];
        [apply IH | discriminate ..]. }
  intros Hfin. specialize (Hflag fuel st Hfin). split; [exact Hflag |].
  intros E' R' fuel'. unfold startPolling. rewrite Hflag. reflexivity.
Qed.

(** ** The loop as a whole *)

(** X3: the promise of the loop is rejected only from the [catch] block
    of a turn: the [try] block raised a value [u], and the [catch] block
    raised in turn, before the sleep.  Either [u] is null or undefined
    and reading its stack raised the TypeError; or a kept field of [u]
    has no text; or the logger raised on the line of
    [handleUnknownError]; or the error handler raised. *)
Theorem poll_rejected_from_catch_block (E : Env) (R : TaskRunner)
    (fuel : nat) (st st' : State) (e : JsVal) :
  poll E R fuel st = (Finished (Throw e), st') ->
  exists st0 st1 u,
    poll_try E R st0 = (Throw u, st1)
    /\ poll_catch E R u st1 = (Throw e, st')
    /\ ((is_nullish u = true
         /\ e = type_error E u "stack"
         /\ trace st' = trace st1)
        \/ (is_nullish u = false
            /\ trace st' = trace st1
            /\ exists v,
                 (v = kept_field u "message" \/ v = kept_field u "stack")
                 /\ text_of E v = None
                 /\ e = convert_error E v)
        \/ (exists message stack,
              trace st' =
                trace st1
                  ++ [EvLogError (unknown_error_line R message stack) None]
              /\ settled (logger_reply E (trace st')) = Rejected e)
        \/ (exists message stack,
              trace st' =
                trace st1
                  ++ [EvLogError (unknown_error_line R message stack) None;
                      EvOnError u None]
              /\ settled (onError_reply E (trace st')) = Rejected e)).
Proof.
  revert st. induction fuel as [| fuel IH]; intros st Hrun; simpl in Hrun.
  - destruct (isPolling st); discriminate.
  - destruct (isPolling st); [| discriminate].
    destruct (poll_iteration E R st) as [[[] | e1 |] st2] eqn:Hturn;
      [by apply (IH st2) | | discriminate].
    injection Hrun as -> ->.
    unfold poll_iteration in Hturn. rewrite run_bind in Hturn.
    unfold try_catch in Hturn.
    destruct (poll_try E R st) as [[[] | u |] st1] eqn:Htry.
    + unfold sleep in Hturn. discriminate.
    + destruct (poll_catch_runs E R u st1)
        as (c & st3 & evs & Hcatch & Htr & Hshape).
      rewrite Hcatch in Hturn.
      destruct c as [[] | e2 |]; [unfold sleep in Hturn; discriminate | |
                                  discriminate].
      injection Hturn as -> ->.
      exists st, st1, u. split; [exact Htry |]. split; [exact Hcatch |].
      inversion Hshape as [h Hn | h Hn Hm | h m Hn Hm Hs
                          | h m s c Hn Hm Hs Hl | h m s Hn Hm Hs Hl Hc];
        subst.
      * left. rewrite app_nil_r in Htr. by repeat split.
      * right. left. rewrite app_nil_r in Htr.
        split; [exact Hn |]. split; [exact Htr |].
        exists (kept_field u "message"). split; [by left | by split].
      * right. left. rewrite app_nil_r in Htr.
        split; [exact Hn |]. split; [exact Htr |].
        exists (kept_field u "stack"). split; [by right | by split].
      * right. right. left. exists m, s. split; [exact Htr |].
        rewrite Htr. by apply interrupted_throw in Hl.
      * right. right. right. exists m, s. split; [exact Htr |].
        rewrite Htr. apply completion_throw. by symmetry.
    + discriminate.
Qed.

Lemma fetches_nil_not_fetch evs ev :
  fetches evs = [] -> ev ∈ evs -> is_fetch ev = false.
Proof.
  intros Hnil Hin. destruct (is_fetch ev) eqn:Hf; [| reflexivity].
  assert (Hin' : ev ∈ fetches evs).
  { unfold fetches. apply list_elem_of_filter. split; [| exact Hin].
    rewrite Hf. exact I. }
  rewrite Hnil in Hin'. by apply elem_of_nil in Hin'.
Qed.

Lemma only_fetch_is_first (first : Event) evs pre ev post :
  fetches evs = [] ->
  first :: evs = pre ++ ev :: post ->
  is_fetch ev = true ->
  pre = [] /\ ev = first.
Proof.
  intros Hfe Hsplit Hf. destruct pre as [| x pre]; simpl in Hsplit.
  - injection Hsplit as -> _. by split.
  - injection Hsplit as _ ->.
    rewrite (fetches_nil_not_fetch _ ev Hfe) in Hf; [discriminate |].
    apply elem_of_app. right. by left.
Qed.



(** X5: the loop never sends two requests back to back: every request
    to the queue service but the first comes right after the sleep of
    the poll interval, whatever happened in the turn before. *)
Theorem poll_requests_spaced (E : Env) (R : TaskRunner) (fuel : nat)
    (st : State) :
  exists evs,
    trace (poll E R fuel st).2 = trace st ++ evs
    /\ forall pre ev post,
         evs = pre ++ ev :: post ->
         is_fetch ev = true ->
         ev = poll_request R
         /\ (pre = []
             \/ exists pre',
                  pre = pre' ++ [EvTimer (pollInterval (options R))]).
Proof.
  assert (Hnil : forall st : State, exists evs : list Event,
            trace st = trace st ++ evs
            /\ forall pre ev post,
                 evs = pre ++ ev :: post ->
                 is_fetch ev = true ->
                 ev = poll_request R
                 /\ (pre = []
                     \/ exists pre',
                          pre = pre' ++ [EvTimer (pollInterval (options R))])).
  { intros st0. exists []. rewrite app_nil_r. split; [reflexivity |].
    intros pre ev post Hsplit. by destruct pre. }
  revert st. induction fuel as [| fuel IH]; intros st; simpl.
  - destruct (isPolling st); apply Hnil.
  - destruct (isPolling st); [| apply Hnil].
    destruct (poll_iteration_runs E R st)
      as (c & st1 & evs0 & Hrun & Htr & Hturn).
    rewrite Hrun.
    destruct (TurnRun_calls _ _ _ _ _ Hturn)
      as (evs & -> & (Hfe & _) & Hend).
    assert (Hlast : exists evs1 : list Event,
              trace st1 = trace st ++ evs1
              /\ forall pre ev post,
                   evs1 = pre ++ ev :: post ->
                   is_fetch ev = true ->
                   ev = poll_request R
                   /\ (pre = []
                       \/ exists pre',
                            pre = pre'
                                    ++ [EvTimer (pollInterval (options R))])).
    { exists (poll_request R :: evs). split; [exact Htr |].
      intros pre ev post Hsplit Hf.
      destruct (only_fetch_is_first _ _ _ _ _ Hfe Hsplit Hf) as [-> ->].
      by split; [| left]. }
    destruct c as [[] | e |]; [| exact Hlast ..].
    destruct (Hend eq_refl) as (body & Hbody).
    destruct (IH st1) as (evs' & Htr' & Hspaced).
    exists ((poll_request R :: evs) ++ evs').
    split; [rewrite Htr', Htr, <- app_assoc; reflexivity |].
    intros pre ev post Hsplit Hf.
    apply app_eq_inv in Hsplit as [(k & Hturn' & Hrest) | (k & Hpre & Hrest)].
    + destruct k as [| x k]; simpl in Hrest.
      * destruct (Hspaced [] ev post (eq_sym Hrest) Hf) as [-> _].
        split; [reflexivity |]. right.
        exists (poll_request R :: body).
        rewrite app_nil_r in Hturn'. rewrite <- Hturn', Hbody. reflexivity.
      * injection Hrest as <- ->.
        destruct (only_fetch_is_first _ _ _ _ _ Hfe Hturn' Hf) as [-> ->].
        by split; [| left].
    + destruct (Hspaced k ev post Hrest Hf) as [-> [-> | (pre' & ->)]].
      * split; [reflexivity |]. right. exists (poll_request R :: body).
        rewrite Hpre, app_nil_r, Hbody. reflexivity.
      * split; [reflexivity |]. right.
        exists ((poll_request R :: evs) ++ pre').
        rewrite Hpre, app_assoc. reflexivity.
Qed.

(** ** The error funnel on the values it handles *)

(** X6: for a failure value that is neither null nor undefined and
    whose kept fields have a text, [handleUnknownError] is one call of
    the logger, at error level, with the line "Error for <task type>:
    error: <message>, stack: <stack>": the value's message and stack
    where they are truthy and the empty string in their place
    otherwise.  It completes as that call does. *)
Theorem handleUnknownError_logs_one_line (E : Env) (R : TaskRunner)
    (error : JsVal) (st : State) (message stack : string) :
  let kept k :=
    if truthy (opt_chain error k) then opt_chain error k else VStr "" in
  let line :=
    "Error for " +:+ taskDefName (worker R) +:+ ": error: " +:+ message
      +:+ ", stack: " +:+ stack in
  let reply := logger_reply E (trace st ++ [EvLogError line None]) in
  is_nullish error = false ->
  text_of E (kept "message") = Some message ->
  text_of E (kept "stack") = Some stack ->
  handleUnknownError E R error st =
  (completion_of (settled reply),
   host_stop (stop_requested reply)
     (mkState (isPolling st) (trace st ++ [EvLogError line None]))).
Proof.
  intros kept line reply Hdef Hm Hs.
  by rewrite (handleUnknownError_logs E R error st message stack Hdef Hm Hs).
Qed.

(** X7: a thrown string, number or boolean, and an object whose message
    and stack are absent or falsy, leave no text of their own in the
    log: the line has an empty error and an empty stack. *)
Theorem handleUnknownError_drops_text (E : Env) (R : TaskRunner)
    (error : JsVal) (st : State) :
  let line :=
    "Error for " +:+ taskDefName (worker R) +:+ ": error: , stack: " in
  let reply := logger_reply E (trace st ++ [EvLogError line None]) in
  is_primitive error = true
  \/ (exists fields,
        error = VObj fields
        /\ truthy (obj_get fields "message") = false
        /\ truthy (obj_get fields "stack") = false) ->
  handleUnknownError E R error st =
  (completion_of (settled reply),
   host_stop (stop_requested reply)
     (mkState (isPolling st) (trace st ++ [EvLogError line None]))).
Proof.
  intros line reply Hcase.
  assert (Hfacts : is_nullish error = false
                   /\ kept_field error "message" = VStr ""
                   /\ kept_field error "stack" = VStr "").
  { destruct Hcase as [Hprim | (fields & -> & Hm & Hs)].
    - by destruct error.
    - unfold kept_field, opt_chain, get_prop. simpl. by rewrite Hm, Hs. }
  destruct Hfacts as (Hdef & Hm & Hs).
  rewrite (handleUnknownError_logs E R error st "" "" Hdef);
    [reflexivity | by rewrite Hm | by rewrite Hs].
Qed.

(** ** The executor, event by event *)

(** X8: when the worker raises, [executeTask] first goes through the
    whole update-with-retry of the failed record.  When every call of
    the run comes back, it then calls the error handler with the
    worker's error and the task and logs "Error executing <taskId>"
    with the error; these two are its last events. *)
Theorem executeTask_reports_worker_error_last (E : Env) (task : Obj)
    (st : State) (error : JsVal) :
  settled (execute_reply E (trace st ++ [EvExecute task])) = Rejected error ->
  exists c st' evs,
    executeTask E task st = (c, st')
    /\ trace st' = trace st ++ evs
    /\ (calls_return E (trace st) evs = true ->
        forall taskId,
          text_of E (obj_get task "taskId") = Some taskId ->
          c = Normal tt
          /\ exists pre k,
               evs = pre ++
                       [EvOnError error (Some task);
                        EvLogError ("Error executing " +:+ taskId)
                          (Some error)]
               /\ executions pre = [task]
               /\ updates pre = replicate k (failed_result task error)
               /\ 1 <= k <= MAX_RETRIES).
Proof.
  intros Hs.
  destruct (executeTask_runs E task st) as (c & st' & evs & Hrun & Htr & Hshape).
  exists c, st', evs. split; [exact Hrun |]. split; [exact Htr |].
  intros Hcr taskId Htext.
  destruct (ExecRun_smooth _ _ _ Htext _ _ _ Hshape Hcr)
    as [-> (r & loop & tail & -> & Hsmooth & Hcase)].
  split; [reflexivity |].
  destruct Hcase as [(result & Hs' & _) | (error' & Hs' & -> & ->)];
    [congruence |].
  rewrite Hs in Hs'. injection Hs' as <-.
  destruct (SmoothRun_calls _ _ _ _ _ _ _ Hsmooth)
    as ((k & Hk & Hle & Hge) & _ & He & _).
  exists ([EvExecute task;
           EvEnterUpdateWithRetry task (failed_result task error)] ++ loop), k.
  split; [by rewrite <- app_assoc |].
  rewrite executions_app, updates_app, He, Hk.
  split; [reflexivity |]. split; [reflexivity |].
  unfold MAX_RETRIES in *. lia.
Qed.

(** X9: when the worker returns, the first delivery succeeds and the
    logger returns from the debug line, [executeTask] does exactly this:
    the worker call, one update call, and the line "Finished polling
    for task <taskId>"; the error handler is not called and nothing is
    logged at error level. *)
Theorem executeTask_happy_path (E : Env) (task : Obj) (st : State)
    (result : Obj) (taskId : string) :
  let taskResult := completed_result task result in
  settled (execute_reply E (trace st ++ [EvExecute task])) = Resolved result ->
  settled (update_reply E
             (trace st ++
                [EvExecute task; EvEnterUpdateWithRetry task taskResult;
                 EvUpdateTask taskResult]))
    = Resolved tt ->
  text_of E (obj_get task "taskId") = Some taskId ->
  settled (logger_reply E
             (trace st ++
                [EvExecute task; EvEnterUpdateWithRetry task taskResult;
                 EvUpdateTask taskResult;
                 EvLogDebug ("Finished polling for task " +:+ taskId)]))
    = Resolved tt ->
  exists st',
    executeTask E task st = (Normal tt, st')
    /\ trace st' =
         trace st ++
           [EvExecute task; EvEnterUpdateWithRetry task taskResult;
            EvUpdateTask taskResult;
            EvLogDebug ("Finished polling for task " +:+ taskId)].
Proof.
  intros taskResult Hs Hupd Htext Hlog.
  destruct (executeTask_runs E task st) as (c & st' & evs & Hrun & Htr & Hshape).
  assert (Hfinish : forall evs' c',
            FinishRun E task result (trace st ++ [EvExecute task]) evs' c' ->
            c' = Normal tt
            /\ evs' = [EvEnterUpdateWithRetry task taskResult;
                       EvUpdateTask taskResult;
                       EvLogDebug ("Finished polling for task " +:+ taskId)]).
  { intros evs' c' Hfin.
    assert (Hentered : forall loop c0,
              EnteredRun E task taskResult (trace st ++ [EvExecute task])
                loop c0 ->
              c0 = Normal tt
              /\ loop = [EvEnterUpdateWithRetry task taskResult;
                         EvUpdateTask taskResult]).
    { intros loop0 c0 (loop & -> & Hloop).
      rewrite <- app_assoc in Hloop. simpl in Hloop.
      inversion Hloop; subst; tidy; try by split.
      all: try congruence.
      all: unfold MAX_RETRIES in *; lia. }
    inversion Hfin as [h evs0 c0 Hrun0 Hc0 | h evs0 Hrun0 Hno
                      | h evs0 id Hrun0 Hid]; subst.
    - destruct (Hentered _ _ Hrun0) as [-> _]. contradiction.
    - congruence.
    - destruct (Hentered _ _ Hrun0) as [_ ->].
      rewrite Htext in Hid. injection Hid as <-.
      rewrite <- app_assoc. simpl. rewrite Hlog. by split. }
  inversion Hshape as [h Hs' | h error evs0 c0 Hs' Hrep
                      | h result' evs0 c0 Hs' Hfin _
                      | h result' evs0 error evs' c0 Hs' Hfin Hrep]; subst;
    rewrite Hs in Hs'; try discriminate; injection Hs' as <-.
  - destruct (Hfinish _ _ Hfin) as [-> ->]. exists st'. by split.
  - destruct (Hfinish _ _ Hfin) as [Hc _]. discriminate.
Qed.

(** X10: every field the worker returned, other than taskId and
    workflowInstanceId, reaches the queue service unchanged in every
    delivery attempt of the completed record; a taskId or
    workflowInstanceId that the worker returned is overwritten with the
    task's. *)
Theorem executeTask_passes_worker_fields (E : Env) (task : Obj) (st : State)
    (result : Obj) :
  settled (execute_reply E (trace st ++ [EvExecute task])) = Resolved result ->
  exists c st' evs k later taskResult,
    executeTask E task st = (c, st')
    /\ trace st' = trace st ++ evs
    /\ updates evs = replicate k taskResult ++ later
    /\ 1 <= k <= MAX_RETRIES
    /\ (calls_return E (trace st) evs = true ->
        forall taskId,
          text_of E (obj_get task "taskId") = Some taskId ->
          c = Normal tt /\ later = [])
    /\ (forall key,
          key <> "taskId" -> key <> "workflowInstanceId" ->
          taskResult !! key = result !! key)
    /\ taskResult !! "taskId" = Some (obj_get task "taskId")
    /\ taskResult !! "workflowInstanceId"
       = Some (obj_get task "workflowInstanceId")
    /\ dom taskResult = dom result ∪ {[ "taskId"; "workflowInstanceId" ]}.
Proof.
  intros Hs.
  destruct (executeTask_completed_deliveries E task st result Hs)
    as (c & st' & evs & k & more & later & Hrun & Htr & _ & Hupd & Hk & _
        & Hsmooth).
  exists c, st', evs, k, later, (completed_result task result).
  split; [exact Hrun |]. split; [exact Htr |]. split; [exact Hupd |].
  split; [exact Hk |].
  split.
  { intros Hcr taskId Htext.
    by destruct (Hsmooth Hcr taskId Htext) as (-> & _ & ->). }
  split; [intros key H1 H2; by apply completed_result_other |].
  unfold completed_result.
  split; [by simplify_map_eq |]. split; [by simplify_map_eq |].
  rewrite !dom_insert_L. set_unfold. intros x. tauto.
Qed.

(** X11: the record built when the worker raises has these five fields
    and no other, whatever the error value contains. *)
Theorem executeTask_failed_record_fields (E : Env) (task : Obj) (st : State)
    (error : JsVal) :
  settled (execute_reply E (trace st ++ [EvExecute task])) = Rejected error ->
  exists c st' evs k taskResult,
    executeTask E task st = (c, st')
    /\ trace st' = trace st ++ evs
    /\ updates evs = replicate k taskResult
    /\ 1 <= k <= MAX_RETRIES
    /\ dom taskResult =
         {[ "workflowInstanceId"; "taskId"; "reasonForIncompletion";
            "status"; "outputData" ]}
    /\ (forall error',
          opt_chain error' "message" = opt_chain error "message" ->
          failed_result task error' = taskResult).
Proof.
  intros Hs.
  destruct (executeTask_failed_deliveries E task st error Hs)
    as (c & st' & evs & k & Hrun & Htr & _ & Hupd & Hk & _).
  exists c, st', evs, k, (failed_result task error).
  split; [exact Hrun |]. split; [exact Htr |]. split; [exact Hupd |].
  split; [exact Hk |]. unfold failed_result. split.
  - rewrite !dom_insert_L, dom_empty_L. set_solver.
  - intros error' Hmsg. by rewrite Hmsg.
Qed.

(** X12: what [executeTask] does is the same whether the flag is set or
    clear: a [stopPolling] in the middle of a task cancels neither the
    update nor its retries and their sleeps. *)
Theorem executeTask_ignores_flag (E : Env) (task : Obj) (h : list Event)
    (flag1 flag2 : bool) :
  (executeTask E task (mkState flag1 h)).1
  = (executeTask E task (mkState flag2 h)).1
  /\ trace (executeTask E task (mkState flag1 h)).2
     = trace (executeTask E task (mkState flag2 h)).2.
Proof. apply flag_blind_executeTask. Qed.

(** X13: no method of the runner but [startPolling] sets the flag: once
    it is clear it stays clear through [handleUnknownError],
    [updateTaskWithRetry], [executeTask] and the rest of a turn, and the
    loop does not go on. *)
Theorem only_startPolling_sets_flag (E : Env) (R : TaskRunner) (task : Obj)
    (taskResult : Obj) (error : JsVal) (fuel : nat) (st : State) :
  isPolling st = false ->
  isPolling (handleUnknownError E R error st).2 = false
  /\ isPolling (updateTaskWithRetry E task taskResult st).2 = false
  /\ isPolling (executeTask E task st).2 = false
  /\ isPolling (poll_iteration E R st).2 = false
  /\ poll E R fuel st = (Finished (Normal tt), st).
Proof.
  intros Hp.
  split; [by apply stays_stopped_handleUnknownError |].
  split; [by apply stays_stopped_updateTaskWithRetry |].
  split; [by apply stays_stopped_executeTask |].
  split; [by apply stays_stopped_poll_iteration |].
  by apply poll_stopped.
Qed.

(** X14: when the worker returns but no delivery of the record
    succeeds, and every call of the run comes back, [executeTask] still
    returns and still logs its closing debug line: the three failed
    attempts go to the error handler, each with its own error, the
    terminal line is logged, and the result is dropped. *)
Theorem executeTask_drops_undelivered_result (E : Env) (task : Obj)
    (st : State) (result : Obj) (taskId : string) :
  let taskResult := completed_result task result in
  let failed (n : string) (delay : Z) (e : JsVal) :=
    [ EvUpdateTask taskResult;
      EvOnError e (Some task);
      EvLogError ("Error updating task " +:+ taskId +:+ " on retry " +:+ n)
        (Some e);
      EvTimer delay ] in
  settled (execute_reply E (trace st ++ [EvExecute task])) = Resolved result ->
  text_of E (obj_get task "taskId") = Some taskId ->
  exists c st' evs,
    executeTask E task st = (c, st')
    /\ trace st' = trace st ++ evs
    /\ (calls_return E (trace st) evs = true ->
        (forall pre post,
           evs = pre ++ EvUpdateTask taskResult :: post ->
           settled (update_reply E
                      (trace st ++ pre ++ [EvUpdateTask taskResult]))
           <> Resolved tt) ->
        c = Normal tt
        /\ exists e0 e1 e2,
             evs = [EvExecute task; EvEnterUpdateWithRetry task taskResult]
                     ++ failed "0" 10%Z e0 ++ failed "1" 20%Z e1
                     ++ failed "2" 30%Z e2
                     ++ [EvLogError
                           ("Unable to update task " +:+ taskId
                              +:+ " after 3 retries") None;
                         EvLogDebug
                           ("Finished polling for task " +:+ taskId)]).
Proof.
  intros taskResult failed Hs Htext.
  destruct (executeTask_runs E task st) as (c & st' & evs & Hrun & Htr & Hshape).
  exists c, st', evs. split; [exact Hrun |]. split; [exact Htr |].
  intros Hcr Hnone.
  destruct (ExecRun_smooth _ _ _ Htext _ _ _ Hshape Hcr)
    as [-> (r & loop & tail & -> & Hsmooth & Hcase)].
  split; [reflexivity |].
  destruct Hcase as [(result' & Hs' & -> & ->) | (error' & Hs' & _)];
    [| congruence].
  rewrite Hs in Hs'. injection Hs' as <-. fold taskResult in Hsmooth, Hnone |- *.
  remember (trace st ++ [EvExecute task; EvEnterUpdateWithRetry task taskResult])
    as h0 eqn:Hh0.
  assert (Hfail : forall pre post,
            loop = pre ++ EvUpdateTask taskResult :: post ->
            settled (update_reply E (h0 ++ pre ++ [EvUpdateTask taskResult]))
            <> Resolved tt).
  { intros pre post Hsplit.
    specialize (Hnone ([EvExecute task; EvEnterUpdateWithRetry task taskResult]
                         ++ pre)
                  (post ++ [EvLogDebug ("Finished polling for task "
                                          +:+ taskId)])).
    subst h0. rewrite <- app_assoc. simpl in *. apply Hnone.
    rewrite Hsplit, <- app_assoc. reflexivity. }
  clear Hnone Hshape Hcr Hrun Htr Hh0.
  inversion Hsmooth as [rc h Hlt Hd | rc h e0 evs1 Hlt Hr Hnext | rc h Hge];
    subst rc h; [| | unfold MAX_RETRIES in Hge; lia].
  { exfalso. subst loop. apply (Hfail [] []); [reflexivity | exact Hd]. }
  subst loop.
  inversion Hnext as [rc h Hlt1 Hd1 | rc h e1 evs2 Hlt1 Hr1 Hnext1 | rc h Hge];
    subst rc h; [| | unfold MAX_RETRIES in Hge; lia].
  { exfalso. subst evs1.
    apply (Hfail (failed_attempt task taskResult taskId 0 e0) []);
      [reflexivity |].
    repeat rewrite <- app_assoc in Hd1. repeat rewrite <- app_assoc.
    exact Hd1. }
  subst evs1.
  inversion Hnext1 as [rc h Hlt2 Hd2 | rc h e2 evs3 Hlt2 Hr2 Hnext2 | rc h Hge];
    subst rc h; [| | unfold MAX_RETRIES in Hge; lia].
  { exfalso. subst evs2.
    apply (Hfail (failed_attempt task taskResult taskId 0 e0
                    ++ failed_attempt task taskResult taskId 1 e1) []);
      [by rewrite <- app_assoc |].
    repeat rewrite <- app_assoc in Hd2. repeat rewrite <- app_assoc.
    exact Hd2. }
  subst evs2.
  inversion Hnext2 as [rc h Hlt3 | rc h e3 evs4 Hlt3 | rc h Hge];
    subst rc h;
    [unfold MAX_RETRIES in Hlt3; lia | unfold MAX_RETRIES in Hlt3; lia |].
  subst evs3. exists e0, e1, e2. reflexivity.
Qed.

(** ** On sample hosts *)

Import MoreSamples.


Lemma poll_settles_with_flag_sample :
  isPolling (poll queue_empty runner 3 started).2 = false
  /\ startPolling worker_raises runner 2 (poll queue_empty runner 3 started).2
     = poll worker_raises runner 2
         (mkState true (trace (poll queue_empty runner 3 started).2)).
Proof.
  destruct (poll_settles_with_flag queue_empty runner 3 started)
    as [Hflag Hstart]; [vm_compute; reflexivity |].
  split; [exact Hflag | apply Hstart].
Defined.

Lemma poll_rejected_from_catch_block_sample :
  exists st0 st1 u,
    poll_try fetch_rejects_undefined runner st0 = (Throw u, st1)
    /\ poll_catch fetch_rejects_undefined runner u st1
       = (Throw (v8_TypeError VUndefined "stack"),
          mkState true [EvPoll "greet" "worker-1" None])
    /\ is_nullish u = true.
Proof.
  destruct (poll_rejected_from_catch_block fetch_rejects_undefined runner 5
              started (mkState true [EvPoll "greet" "worker-1" None])
              (v8_TypeError VUndefined "stack"))
    as (st0 & st1 & u & Htry & Hcatch & Hcause);
    [vm_compute; reflexivity |].
  exists st0, st1, u. split; [exact Htry |]. split; [exact Hcatch |].
  destruct Hcause as [(Hn & _) | [(_ & _ & v & _ & _ & He)
                                  | [(m & s & Htr & _) | (m & s & Htr & _)]]].
  - exact Hn.
  - exfalso. vm_compute in He. discriminate.
  - exfalso. apply (f_equal last) in Htr. rewrite last_app in Htr.
    discriminate.
  - exfalso. apply (f_equal last) in Htr. rewrite last_app in Htr.
    discriminate.
Defined.

Lemma handleUnknownError_logs_one_line_sample :
  handleUnknownError service_down runner huge stopped
  = (Normal tt,
     mkState false [EvLogError "Error for greet: error: 1e+21, stack: " None]).
Proof.
  rewrite (handleUnknownError_logs_one_line service_down runner huge stopped
             "1e+21" "");
    [reflexivity | reflexivity | vm_compute; reflexivity | reflexivity].
Defined.

Lemma handleUnknownError_drops_text_sample :
  handleUnknownError service_down runner (VStr "oops") stopped
  = (Normal tt,
     mkState false [EvLogError "Error for greet: error: , stack: " None]).
Proof.
  rewrite (handleUnknownError_drops_text service_down runner (VStr "oops")
             stopped);
    [reflexivity | left; reflexivity].
Defined.

Lemma executeTask_reports_worker_error_last_sample :
  exists st' pre k,
    executeTask worker_raises task_t1 started = (Normal tt, st')
    /\ trace st' =
         trace started ++ pre ++
           [EvOnError boom (Some task_t1);
            EvLogError "Error executing t1" (Some boom)]
    /\ executions pre = [task_t1]
    /\ updates pre = replicate k (failed_result task_t1 boom)
    /\ 1 <= k <= MAX_RETRIES.
Proof.
  destruct (executeTask_reports_worker_error_last worker_raises task_t1 started
              boom eq_refl)
    as (c & st' & evs & Hrun & Htr & Hsmooth).
  assert (Hcr : calls_return worker_raises (trace started) evs = true).
  { pose proof Hrun as Hrun'. vm_compute in Hrun'.
    injection Hrun' as _ <-. vm_compute in Htr. subst evs.
    vm_compute. reflexivity. }
  destruct (Hsmooth Hcr "t1" eq_refl) as [-> (pre & k & -> & Hex & Hupd & Hk)].
  by exists st', pre, k.
Defined.

Lemma executeTask_happy_path_sample :
  exists st',
    executeTask worker_returns task_t1 started = (Normal tt, st')
    /\ trace st' =
         [ EvExecute task_t1;
           EvEnterUpdateWithRetry task_t1 (completed_result task_t1 completed);
           EvUpdateTask (completed_result task_t1 completed);
           EvLogDebug "Finished polling for task t1" ].
Proof.
  apply (executeTask_happy_path worker_returns task_t1 started completed "t1");
    reflexivity.
Defined.

Lemma executeTask_passes_worker_fields_sample :
  completed_result task_t1 verbose
  = {[ "status" := VStr "IN_PROGRESS"; "callbackAfterSeconds" := VNum 30;
       "taskId" := VStr "t1"; "workflowInstanceId" := VStr "w1" ]}
  /\ exists c st' evs k later taskResult,
       executeTask worker_returns_verbose task_t1 started = (c, st')
       /\ trace st' = trace started ++ evs
       /\ updates evs = replicate k taskResult ++ later
       /\ 1 <= k <= MAX_RETRIES
       /\ taskResult !! "callbackAfterSeconds" = verbose !! "callbackAfterSeconds"
       /\ taskResult !! "taskId" = Some (VStr "t1").
Proof.
  split; [vm_compute; reflexivity |].
  destruct (executeTask_passes_worker_fields worker_returns_verbose task_t1
              started verbose eq_refl)
    as (c & st' & evs & k & later & r & Hrun & Htr & Hupd & Hk & _ & Hother
        & Hid & _).
  exists c, st', evs, k, later, r. repeat split; try assumption; try apply Hk.
  by apply Hother.
Defined.

Lemma executeTask_failed_record_fields_sample :
  exists c st' evs k taskResult,
    executeTask worker_raises task_t1 started = (c, st')
    /\ trace st' = trace started ++ evs
    /\ updates evs = replicate k taskResult
    /\ 1 <= k <= MAX_RETRIES
    /\ dom taskResult =
         {[ "workflowInstanceId"; "taskId"; "reasonForIncompletion";
            "status"; "outputData" ]}
    /\ (forall error',
          opt_chain error' "message" = opt_chain boom "message" ->
          failed_result task_t1 error' = taskResult).
Proof.
  apply (executeTask_failed_record_fields worker_raises task_t1 started boom).
  reflexivity.
Defined.

Lemma only_startPolling_sets_flag_sample :
  isPolling (executeTask worker_raises task_t1 stopped).2 = false
  /\ poll worker_raises runner 3 stopped = (Finished (Normal tt), stopped).
Proof.
  destruct (only_startPolling_sets_flag worker_raises runner task_t1 task_t1
              boom 3 stopped eq_refl) as (_ & _ & Hexec & _ & Hpoll).
  split; [exact Hexec | exact Hpoll].
Defined.

Lemma executeTask_drops_undelivered_result_sample :
  exists st',
    executeTask service_down task_t1 started = (Normal tt, st')
    /\ updates (trace st') = replicate 3 (completed_result task_t1 completed)
    /\ last (trace st') = Some (EvLogDebug "Finished polling for task t1").
Proof.
  destruct (executeTask_drops_undelivered_result service_down task_t1 started
              completed "t1" eq_refl eq_refl)
    as (c & st' & evs & Hrun & Htr & Hsmooth).
  assert (Hcr : calls_return service_down (trace started) evs = true).
  { pose proof Hrun as Hrun'. vm_compute in Hrun'.
    injection Hrun' as _ <-. vm_compute in Htr. subst evs.
    vm_compute. reflexivity. }
  destruct (Hsmooth Hcr) as [-> (e0 & e1 & e2 & ->)].
  { intros pre post _. simpl. discriminate. }
  exists st'. split; [exact Hrun |]. rewrite Htr.
  split; vm_compute; reflexivity.
Defined.
